(** * Vectorizer: the vector-operations module and the embedder lifecycle

    A shallow embedding of [src/lib/vectorizer.ts] (the numeric routines
    [cosineSimilarity], [euclideanDistance], [normalizeVector], [findSimilar]
    and the lazily created [embedder] singleton) and of the similarity label
    of the HTTP layer ([getSimilarity] in [src/index.ts] and the inline
    conditional of the [/similarity] route in [src/helpers/index.ts]).

    A JavaScript [number] is an IEEE 754 binary64 value: it is modelled by
    Rocq's primitive [float], whose operations round to nearest-even exactly
    as the JavaScript operators do.  [===] on numbers is [PrimFloat.eqb]
    (so [NaN === NaN] is false and [0 === -0] is true), [>] is [PrimFloat.ltb]
    with its operands exchanged, [Math.sqrt] is [PrimFloat.sqrt]. *)

From Stdlib Require Import String.
From Stdlib Require Import ZArith List Bool Lia Floats Sorted Permutation.
Import ListNotations.

Set Warnings "-inexact-float,-register-all".

(** ** Outcomes of a call: a returned value or a thrown [Error] *)

Inductive result (A : Type) : Type :=
| Ok (value : A)
| Throw (message : string).

Arguments Ok {A} value.
Arguments Throw {A} message.

Definition bind {A B : Type} (r : result A) (k : A -> result B) : result B :=
  match r with
  | Ok a => k a
  | Throw m => Throw m
  end.

Notation "x <- r ;; k" := (bind r (fun x => k))
  (at level 61, r at next level, right associativity).

(** ** Binary64 numbers seen through their specification

    [Prim2SF] maps a primitive float to the [spec_float] that the axioms of
    [FloatAxioms] specify its operations on.  [SFkey] is an integer that
    orders the non-[NaN] numbers as [SFcompare] does: the value scaled by
    [2 ^ 1074], with the infinities beyond every finite value. *)

Module Number.

Definition emin64 : Z := -1074.

Definition SFkey (x : spec_float) : Z :=
  match x with
  | S754_zero _ => 0
  | S754_nan => 0
  | S754_infinity s => cond_Zopp s (2 ^ 2098)
  | S754_finite s m e => cond_Zopp s (Zpos m * 2 ^ (e + 1074))
  end.

Definition SFis_nan (x : spec_float) : bool :=
  match x with S754_nan => true | _ => false end.

Definition SFis_finite (x : spec_float) : bool :=
  match x with S754_zero _ | S754_finite _ _ _ => true | _ => false end.

Definition SFpositive (x : spec_float) : bool :=
  SFltb (S754_zero false) x.

(** Zero of either sign, or above zero. *)
Definition SFnonneg (x : spec_float) : bool :=
  match x with
  | S754_zero _ => true
  | S754_infinity s | S754_finite s _ _ => negb s
  | S754_nan => false
  end.

(** Not [NaN], and of sign [s] (a zero counts with its sign). *)
Definition SFsigned (s : bool) (x : spec_float) : bool :=
  match x with
  | S754_zero s' | S754_infinity s' | S754_finite s' _ _ => Bool.eqb s s'
  | S754_nan => false
  end.

Definition key (x : float) : Z := SFkey (Prim2SF x).

(** [Number.isFinite(x)] *)
Definition finite (x : float) : bool := SFis_finite (Prim2SF x).

Definition nonneg (x : float) : bool := SFnonneg (Prim2SF x).

End Number.

(** ** The numeric routines of [vectorizer.ts] *)

Module VectorMath.

Open Scope float_scope.

Definition Vector := list float.

(** [for (let i = 0; i < n; i++) body]: the body runs at [i], [i+1], ... for
    [n] rounds, threading the loop's local variables as a state. *)
Fixpoint for_loop {S : Type} (n i : nat) (body : nat -> S -> S) (s : S) : S :=
  match n with
  | O => s
  | Datatypes.S n' => for_loop n' (Datatypes.S i) body (body i s)
  end.

(** [v[i]] of a [number[]]; an index past the end reads [undefined], which
    arithmetic turns into [NaN]. *)
Definition get (v : Vector) (i : nat) : float := nth i v nan.

Definition same_length_error : string :=
  "Vectors must have the same length"%string.

(** The three accumulators of the loop of [cosineSimilarity]. *)
Record cosine_acc : Type := {
  dotProduct : float;
  normA : float;
  normB : float
}.

Definition cosine_body (vectorA vectorB : Vector) (i : nat) (acc : cosine_acc)
  : cosine_acc :=
  {| dotProduct := dotProduct acc + get vectorA i * get vectorB i;
     normA := normA acc + get vectorA i * get vectorA i;
     normB := normB acc + get vectorB i * get vectorB i |}.

Definition cosine_loop (vectorA vectorB : Vector) : cosine_acc :=
  for_loop (length vectorA) 0 (cosine_body vectorA vectorB)
    {| dotProduct := 0; normA := 0; normB := 0 |}.

Definition cosineSimilarity (vectorA vectorB : Vector) : result float :=
  if negb (Nat.eqb (length vectorA) (length vectorB)) then
    Throw same_length_error
  else
    let acc := cosine_loop vectorA vectorB in
    if (normA acc =? 0) || (normB acc =? 0) then Ok 0
    else Ok (dotProduct acc / (sqrt (normA acc) * sqrt (normB acc))).

Definition euclid_body (vectorA vectorB : Vector) (i : nat) (sum : float)
  : float :=
  let diff := get vectorA i - get vectorB i in
  sum + diff * diff.

Definition euclideanDistance (vectorA vectorB : Vector) : result float :=
  if negb (Nat.eqb (length vectorA) (length vectorB)) then
    Throw same_length_error
  else
    Ok (sqrt (for_loop (length vectorA) 0 (euclid_body vectorA vectorB) 0)).

(** [vector.reduce((sum, val) => sum + val * val, 0)] *)
Definition sum_squares (vector : Vector) : float :=
  fold_left (fun sum val => sum + val * val) vector 0.

(** Arrays are objects: [normalizeVector] either hands back the very array
    it was given or allocates a new one, so arrays live in a store and are
    passed by address. *)
Definition ref := nat.
Definition store := list Vector.

Definition read (h : store) (r : ref) : Vector := nth r h [].

Definition alloc (h : store) (v : Vector) : store * ref :=
  (h ++ [v], length h).

Definition normalizeVector (h : store) (vector : ref) : store * ref :=
  let elems := read h vector in
  let norm := sqrt (sum_squares elems) in
  if norm =? 0 then (h, vector)
  else alloc h (map (fun val => val / norm) elems).

(** The array that a call on a lone array [v] returns. *)
Definition normalized (v : Vector) : Vector :=
  let '(h, r) := normalizeVector [v] 0%nat in read h r.

(** *** [findSimilar] *)

Record SimilarityResult : Type := {
  index : nat;
  similarity : float
}.

(** [vectors.map((vector, index) => ({ index, similarity: ... }))]; the
    callback runs from the first element on, and the first throw ends the
    call. *)
Fixpoint map_similarities (queryVector : Vector) (vectors : list Vector)
    (index : nat) : result (list SimilarityResult) :=
  match vectors with
  | [] => Ok []
  | vector :: rest =>
      s <- cosineSimilarity queryVector vector ;;
      tl <- map_similarities queryVector rest (S index) ;;
      Ok ({| index := index; similarity := s |} :: tl)
  end.

(** [Array.prototype.sort(comparefn)].  ECMAScript requires the sort to be
    stable, and takes a [NaN] returned by the comparator for [+0]; an
    element [x] that stood before [y] ends after it only when
    [comparefn(x, y) > 0], which [0 <? comparefn x y] tests ([0 < NaN] is
    false).  For a comparator that is a consistent order this fixes the
    result, which the stable insertion sort below computes.  For an
    inconsistent one (a [NaN] among the keys) the language leaves the order
    to the engine, and the insertion sort is one such engine. *)
Section Sort.
Context {A : Type}.
Variable comparefn : A -> A -> float.

Fixpoint insert (x : A) (l : list A) : list A :=
  match l with
  | [] => [x]
  | y :: l' =>
      if 0 <? comparefn x y then y :: insert x l' else x :: y :: l'
  end.

Fixpoint sort (l : list A) : list A :=
  match l with
  | [] => []
  | x :: l' => insert x (sort l')
  end.
End Sort.

(** [arr.slice(0, end)] for an integer [end]: a negative [end] counts from
    the end of the array. *)
Definition slice0 {A : Type} (l : list A) (end_ : Z) : list A :=
  let len := Z.of_nat (length l) in
  let final := if (end_ <? 0)%Z then Z.max (len + end_) 0 else Z.min end_ len in
  firstn (Z.to_nat final) l.

Definition by_similarity_desc (a b : SimilarityResult) : float :=
  similarity b - similarity a.

Definition findSimilar (queryVector : Vector) (vectors : list Vector)
    (topK : Z) : result (list SimilarityResult) :=
  similarities <- map_similarities queryVector vectors 0 ;;
  Ok (slice0 (sort by_similarity_desc similarities) topK).

(** [topK] defaults to 5. *)
Definition findSimilar_default (queryVector : Vector) (vectors : list Vector)
  : result (list SimilarityResult) :=
  findSimilar queryVector vectors 5.

(** *** The quantities the specification names

    Written from the specification's words, to be compared with what the
    loops accumulate: the dot product, the Euclidean norm and the squared
    distance, each summed from the first component on in binary64. *)

Definition dot (a b : Vector) : float :=
  fold_left (fun s xy => s + fst xy * snd xy) (combine a b) 0.

Definition norm (v : Vector) : float := sqrt (sum_squares v).

Definition squared_distance (a b : Vector) : float :=
  fold_left (fun s xy => s + (fst xy - snd xy) * (fst xy - snd xy))
    (combine a b) 0.

(** [x] is ranked before [y]: a greater similarity, or the same similarity
    and an earlier candidate. *)
Definition ranks_before (x y : SimilarityResult) : Prop :=
  (Number.key (similarity y) < Number.key (similarity x))%Z \/
  (Number.key (similarity x) = Number.key (similarity y) /\
   (index x < index y)%nat).

Definition index_lt (x y : SimilarityResult) : Prop :=
  (index x < index y)%nat.

Definition no_nan (r : SimilarityResult) : Prop :=
  is_nan (similarity r) = false.

(** Results in non-increasing order of similarity. *)
Definition sorted_desc (r : list SimilarityResult) : Prop :=
  forall i j x y, (i < j)%nat ->
    nth_error r i = Some x -> nth_error r j = Some y ->
    (similarity y <=? similarity x) = true.

(** Results of equal similarity in the order of their candidates. *)
Definition ties_in_index_order (r : list SimilarityResult) : Prop :=
  forall i j x y, (i < j)%nat ->
    nth_error r i = Some x -> nth_error r j = Some y ->
    (similarity x =? similarity y) = true -> (index x < index y)%nat.

End VectorMath.

(** ** The similarity label of the HTTP layer *)

Module Labels.

Open Scope float_scope.

Definition very_similar : string := "Very similar"%string.
Definition similar : string := "Similar"%string.
Definition somewhat_similar : string := "Somewhat similar"%string.
Definition not_similar : string := "Not similar"%string.

(** [getSimilarity] of [src/index.ts]. *)
Definition getSimilarity (similarity : float) : string :=
  if 0.8 <? similarity then very_similar
  else if 0.6 <? similarity then similar
  else if 0.4 <? similarity then somewhat_similar
  else not_similar.

(** The [interpretation] field of the [/similarity] route of
    [src/helpers/index.ts], a nested conditional expression. *)
Definition interpretation (similarity : float) : string :=
  if 0.8 <? similarity then very_similar else
  if 0.6 <? similarity then similar else
  if 0.4 <? similarity then somewhat_similar else not_similar.

End Labels.

(** ** The embedder singleton and the asynchronous calls that use it

    [initializeEmbedder], [vectorize] and [vectorizeBatch] are [async]
    functions: a call runs until its first [await] and is resumed later, so
    calls interleave at their [await]s.  Each call is a task that stands at a
    program point; an [event] is a new call, or the settling of what a task
    awaits.  [pipeline(...)] and the backend's inference are external: their
    outcomes come with the events. *)

Module Embedder.

Import VectorMath.
Open Scope string_scope.

Definition default_model : string := "Xenova/all-MiniLM-L6-v2".

(** The handle that [pipeline('feature-extraction', modelName)] resolves to;
    [created_by] is the task whose [pipeline] call made it, which tells two
    handles apart. *)
Record Backend : Type := {
  loaded_model : string;
  created_by : nat
}.

Inductive Pooling : Type := mean | cls.

Record VectorizeOptions : Type := {
  modelName : option string;
  pooling : option Pooling;
  normalize : option bool
}.

Definition no_options : VectorizeOptions :=
  {| modelName := None; pooling := None; normalize := None |}.

Definition with_model (m : string) : VectorizeOptions :=
  {| modelName := Some m; pooling := None; normalize := None |}.

Definition model_or_default (m : option string) : string :=
  match m with Some name => name | None => default_model end.

Inductive input : Type :=
| OneText (text : string)
| Texts (texts : list string).

(** The call [embedder(text, { pooling, normalize })]. *)
Record inference : Type := {
  texts_in : input;
  with_pooling : Pooling;
  with_normalize : bool
}.

Inductive output : Type :=
| Embedding (v : option Vector)    (* [embedding.tolist()[0]] *)
| Embeddings (vs : list Vector).   (* [embeddings.tolist()] *)

(** Where a call of [initializeEmbedder] stands. *)
Inductive init_point : Type :=
| AwaitPipeline (model : string)   (* suspended in [await pipeline(...)] *)
| Returned (handle : Backend)      (* [return embedder] *)
| Rejected (err : string).         (* [pipeline] rejected, the call throws *)

Inductive task : Type :=
| Initialize (p : init_point)
| EmbedInit (i : input) (o : VectorizeOptions) (p : init_point)
    (* [vectorize]/[vectorizeBatch] in [await initializeEmbedder(modelName)] *)
| EmbedRun (call : inference) (used : Backend)
    (* in [await embedder(text, { pooling, normalize })] *)
| EmbedDone (r : result output).

Record state : Type := {
  embedder : option Backend;     (* [let embedder: any = null] *)
  tasks : list task;             (* the calls made so far, in call order *)
  pipelines : list string;       (* the [pipeline(...)] invocations so far *)
  created : list Backend         (* the backends those invocations created *)
}.

Definition initial : state :=
  {| embedder := None; tasks := []; pipelines := []; created := [] |}.

(** [initializeEmbedder(modelName)], from the call to its [return] or to its
    suspension in [await pipeline(...)]. *)
Definition initializeEmbedder (model : string) (s : state)
  : init_point * state :=
  match embedder s with
  | Some h => (Returned h, s)
  | None =>
      (AwaitPipeline model,
       {| embedder := embedder s; tasks := tasks s;
          pipelines := pipelines s ++ [model]; created := created s |})
  end.

(** The rest of [initializeEmbedder] once [pipeline] has settled: the
    assignment [embedder = ...] and [return embedder], or the rethrown
    rejection, which skips the assignment. *)
Definition initializeEmbedder_resume (settled : result Backend) (s : state)
  : init_point * state :=
  match settled with
  | Ok h =>
      (Returned h,
       {| embedder := Some h; tasks := tasks s;
          pipelines := pipelines s; created := created s ++ [h] |})
  | Throw err => (Rejected err, s)
  end.

Definition getModelInfo (s : state) : bool :=
  match embedder s with Some _ => true | None => false end.

(** [vectorize] and [vectorizeBatch], from the call to the suspension in
    [await initializeEmbedder(modelName)]. *)
Definition embed (i : input) (options : VectorizeOptions) (s : state)
  : task * state :=
  let '(p, s1) :=
    initializeEmbedder (model_or_default (modelName options)) s in
  (EmbedInit i options p, s1).

Definition vectorize (text : string) (options : VectorizeOptions)
  : state -> task * state :=
  embed (OneText text) options.

Definition vectorizeBatch (texts : list string) (options : VectorizeOptions)
  : state -> task * state :=
  embed (Texts texts) options.

Definition not_a_function : string := "embedder is not a function".

(** The continuation after [await initializeEmbedder(modelName)]: the call
    [embedder(text, { pooling, normalize })] on whatever the variable
    [embedder] holds by then, [pooling] defaulting to ['mean'] and
    [normalize] to [true]. *)
Definition embed_continue (i : input) (o : VectorizeOptions) (p : init_point)
    (s : state) : option task :=
  match p with
  | AwaitPipeline _ => None
  | Rejected err => Some (EmbedDone (Throw err))
  | Returned _ =>
      match embedder s with
      | Some h =>
          Some (EmbedRun
                  {| texts_in := i;
                     with_pooling :=
                       match pooling o with Some p => p | None => mean end;
                     with_normalize :=
                       match normalize o with Some b => b | None => true end |}
                  h)
      | None => Some (EmbedDone (Throw not_a_function))
      end
  end.

Definition deliver (i : input) (tolist : list Vector) : output :=
  match i with
  | OneText _ => Embedding (hd_error tolist)
  | Texts _ => Embeddings tolist
  end.

(** The continuation after [await embedder(...)]. *)
Definition embed_finish (call : inference) (tensor : result (list Vector))
  : task :=
  EmbedDone (tolist <- tensor ;; Ok (deliver (texts_in call) tolist)).

Definition spawn (t : task) (s : state) : state :=
  {| embedder := embedder s; tasks := tasks s ++ [t];
     pipelines := pipelines s; created := created s |}.

Fixpoint replace_nth {A : Type} (n : nat) (x : A) (l : list A) {struct l}
  : list A :=
  match l, n with
  | [], _ => []
  | _ :: l', O => x :: l'
  | y :: l', S n' => y :: replace_nth n' x l'
  end.

Definition set_task (n : nat) (t : task) (s : state) : state :=
  {| embedder := embedder s; tasks := replace_nth n t (tasks s);
     pipelines := pipelines s; created := created s |}.

(** What can happen next: a new call, or the settling of what task [t]
    awaits. *)
Inductive event : Type :=
| CallInitializeEmbedder (model : option string)
| CallVectorize (text : string) (options : VectorizeOptions)
| CallVectorizeBatch (texts : list string) (options : VectorizeOptions)
| PipelineResolves (t : nat)
| PipelineRejects (t : nat) (err : string)
| Continue (t : nat)
| BackendAnswers (t : nat) (tensor : result (list Vector)).

(** The outcome of the [pipeline] call of task [t]. *)
Definition pipeline_settles (t : nat) (settled : string -> result Backend)
    (s : state) : option state :=
  match nth_error (tasks s) t with
  | Some (Initialize (AwaitPipeline m)) =>
      let '(p, s1) := initializeEmbedder_resume (settled m) s in
      Some (set_task t (Initialize p) s1)
  | Some (EmbedInit i o (AwaitPipeline m)) =>
      let '(p, s1) := initializeEmbedder_resume (settled m) s in
      Some (set_task t (EmbedInit i o p) s1)
  | _ => None
  end.

Definition step (s : state) (e : event) : option state :=
  match e with
  | CallInitializeEmbedder m =>
      let '(p, s1) := initializeEmbedder (model_or_default m) s in
      Some (spawn (Initialize p) s1)
  | CallVectorize text o =>
      let '(t, s1) := vectorize text o s in Some (spawn t s1)
  | CallVectorizeBatch texts o =>
      let '(t, s1) := vectorizeBatch texts o s in Some (spawn t s1)
  | PipelineResolves t =>
      pipeline_settles t
        (fun m => Ok {| loaded_model := m; created_by := t |}) s
  | PipelineRejects t err =>
      pipeline_settles t (fun _ => Throw err) s
  | Continue t =>
      match nth_error (tasks s) t with
      | Some (EmbedInit i o p) =>
          match embed_continue i o p s with
          | Some next => Some (set_task t next s)
          | None => None
          end
      | _ => None
      end
  | BackendAnswers t tensor =>
      match nth_error (tasks s) t with
      | Some (EmbedRun call h) => Some (set_task t (embed_finish call tensor) s)
      | _ => None
      end
  end.

Fixpoint run (s : state) (es : list event) : option state :=
  match es with
  | [] => Some s
  | e :: es' =>
      match step s e with
      | Some s' => run s' es'
      | None => None
      end
  end.

(** A [pipeline(...)] call of the task is still in flight. *)
Definition awaiting_pipeline (t : task) : bool :=
  match t with
  | Initialize (AwaitPipeline _) | EmbedInit _ _ (AwaitPipeline _) => true
  | _ => false
  end.

Definition quiescent (s : state) : bool :=
  forallb (fun t => negb (awaiting_pipeline t)) (tasks s).

(** Two [initializeEmbedder] calls made before any backend exists, then a
    third made once the first backend is there, then a fourth made after the
    second [pipeline] call has resolved too. *)
Definition overlapping_initialize : list event :=
  [CallInitializeEmbedder (Some "model-A");
   CallInitializeEmbedder (Some "model-B");
   PipelineResolves 0;
   CallInitializeEmbedder (Some "model-C");
   PipelineResolves 1;
   CallInitializeEmbedder None].

(** Two [vectorize] calls with different models, made before any backend
    exists; each goes on as soon as its own [pipeline] call has resolved. *)
Definition concurrent_vectorize : list event :=
  [CallVectorize "first" (with_model "model-A");
   CallVectorize "second" (with_model "model-B");
   PipelineResolves 0;
   Continue 0;
   PipelineResolves 1;
   Continue 1].

Definition backend_A : Backend :=
  {| loaded_model := "model-A"; created_by := 0 |}.

Definition backend_B : Backend :=
  {| loaded_model := "model-B"; created_by := 1 |}.

End Embedder.

(** ** Notions used to state what the embedder's states satisfy *)

Module EmbedderSpec.

Import Embedder.

(** The number of [pipeline] calls still in flight. *)
Definition in_flight (s : state) : nat :=
  length (filter awaiting_pipeline (tasks s)).

(** What every state reached from [initial] satisfies. *)
Definition accounted (s : state) : Prop :=
  embedder s = last (map Some (created s)) None /\
  (length (created s) + in_flight s <= length (pipelines s))%nat /\
  (length (pipelines s) <= length (tasks s))%nat.

(** The call has got, or runs on, the backend [h] (a call that is over
    counts). *)
Definition settled_on (h : Backend) (t : task) : Prop :=
  match t with
  | Initialize p | EmbedInit _ _ p => p = Returned h
  | EmbedRun _ used => used = h
  | EmbedDone _ => True
  end.

End EmbedderSpec.

(** ** The HTTP routes

    The routes of [src/index.ts]; [src/helpers/index.ts] holds the same
    routes after [tryCatch], with the similarity label written inline.  A
    route is an [async] handler: it runs to a response, or to the [await] of
    [vectorize] or [vectorizeBatch] and then, with their outcome, to a
    response.  The request body comes as the outcome of [c.req.json()]. *)

Module Http.

Import VectorMath.

(** JavaScript values as the routes meet them: what [JSON.parse] yields,
    and [undefined] for a property that is missing. *)
Inductive js : Type :=
| JUndefined
| JNull
| JBool (b : bool)
| JNumber (x : float)
| JString (s : string)
| JArray (items : list js)
| JObject (properties : list (string * js)).

(** [!v] is [negb (truthy v)]. *)
Definition truthy (v : js) : bool :=
  match v with
  | JUndefined | JNull => false
  | JBool b => b
  | JNumber x => negb ((x =? 0)%float || is_nan x)
  | JString s => negb (String.eqb s "")
  | JArray _ | JObject _ => true
  end.

(** [typeof v === 'string'] *)
Definition typeof_string (v : js) : bool :=
  match v with JString _ => true | _ => false end.

(** [Array.isArray(v)] *)
Definition isArray (v : js) : bool :=
  match v with JArray _ => true | _ => false end.

Definition items_of (v : js) : list js :=
  match v with JArray items => items | _ => [] end.

(** A property of a parsed object; of two entries of one name the later
    one counts, as in [JSON.parse]. *)
Definition lookup (name : string) (properties : list (string * js)) : js :=
  fold_left (fun found kv => if String.eqb (fst kv) name then snd kv else found)
    properties JUndefined.

(** [v.name] for the names the routes read ([text], [texts], [textA],
    [textB], [options]), none of which a prototype defines: only an object
    has them. *)
Definition property (name : string) (v : js) : js :=
  match v with
  | JObject properties => lookup name properties
  | _ => JUndefined
  end.

(** The messages of the two [TypeError]s the routes can meet, which the
    engine words. *)
Record Engine : Type := {
  destructuring_null : string;   (* [const { text } = null] *)
  reading_undefined : string     (* [vector.length] of [undefined] *)
}.

Inductive body : Type :=
| ErrorBody (error : string)
| VectorBody (text : js) (vector : Vector) (dimensions : nat)
| BatchBody (texts : js) (vectors : list Vector) (count dimensions : nat)
| SimilarityBody (textA textB : js) (similarity : float)
    (interpretation : string)
| InfoBody (isInitialized : bool)
| TextBody (text : string).

Record response : Type := {
  status : nat;
  content : body
}.

(** [c.json(object, status)]; the status defaults to 200. *)
Definition json (object : body) (status : nat) : response :=
  {| status := status; content := object |}.

(** [tryCatch] of [src/helpers/index.ts], on the outcome of [await fn()]. *)
Inductive attempt (A : Type) : Type :=
| Data (data : A)
| Failed (error : string).

Arguments Data {A} data.
Arguments Failed {A} error.

Definition tryCatch {A : Type} (outcome : result A) : attempt A :=
  match outcome with
  | Ok data => Data data
  | Throw error => Failed error
  end.

(** The function handed to [tryCatch]: it returns or throws, or awaits
    [vectorize] or [vectorizeBatch] and goes on with their outcome. *)
Inductive script : Type :=
| Return (r : result response)
| CallVectorize (text options : js)
    (k : result (option Vector) -> result response)
| CallVectorizeBatch (texts options : js)
    (k : result (list Vector) -> result response).

(** What a route does. *)
Inductive action : Type :=
| Respond (r : response)
| AwaitVectorize (text options : js) (k : result (option Vector) -> response)
| AwaitVectorizeBatch (texts options : js)
    (k : result (list Vector) -> response).

(** [const { data, error } = await tryCatch(...); if (error) return
    on_error(error.message); return data] *)
Definition finish (on_error : string -> response) (outcome : result response)
  : response :=
  match tryCatch outcome with
  | Failed error => on_error error
  | Data data => data
  end.

Definition route (on_error : string -> response) (fn : script) : action :=
  match fn with
  | Return r => Respond (finish on_error r)
  | CallVectorize text options k =>
      AwaitVectorize text options (fun outcome => finish on_error (k outcome))
  | CallVectorizeBatch texts options k =>
      AwaitVectorizeBatch texts options
        (fun outcome => finish on_error (k outcome))
  end.

Definition text_required : string :=
  "Text is required and must be a string".
Definition texts_required : string :=
  "Texts must be an array of strings".
Definition both_required : string :=
  "Both textA and textB are required and must be strings".
Definition failed_batch : string := "Failed to vectorize texts".
Definition failed_similarity : string := "Failed to calculate similarity".
Definition greeting : string := "Vector Embeddings Generator API".

Section Routes.
Variable engine : Engine.

(** [const { ... } = await c.req.json()]: the body must parse, and the
    parsed value must not be [null]. *)
Definition parsed_body (request : result js) : result js :=
  parsed <- request ;;
  match parsed with
  | JNull | JUndefined => Throw (destructuring_null engine)
  | _ => Ok parsed
  end.

(** [app.post('/vectorize', ...)] *)
Definition vectorize_script (request : result js) : script :=
  match parsed_body request with
  | Throw e => Return (Throw e)
  | Ok parsed =>
      let text := property "text" parsed in
      let options := property "options" parsed in
      if negb (truthy text) || negb (typeof_string text) then
        Return (Ok (json (ErrorBody text_required) 400))
      else
        CallVectorize text options
          (fun outcome =>
             vector <- outcome ;;
             match vector with
             | None => Throw (reading_undefined engine)
             | Some vector =>
                 Ok (json (VectorBody text vector (length vector)) 200)
             end)
  end.

Definition vectorize_route (request : result js) : action :=
  route (fun message => json (ErrorBody message) 500)
    (vectorize_script request).

(** [vectors[0]?.length || 0] *)
Definition first_length (vectors : list Vector) : nat :=
  match vectors with
  | [] => 0
  | first :: _ => length first
  end.

(** [app.post('/vectorize-batch', ...)] *)
Definition batch_script (request : result js) : script :=
  match parsed_body request with
  | Throw e => Return (Throw e)
  | Ok parsed =>
      let texts := property "texts" parsed in
      let options := property "options" parsed in
      if negb (isArray texts)
         || existsb (fun t => negb (typeof_string t)) (items_of texts) then
        Return (Ok (json (ErrorBody texts_required) 400))
      else
        CallVectorizeBatch texts options
          (fun outcome =>
             vectors <- outcome ;;
             Ok (json (BatchBody texts vectors (length vectors)
                         (first_length vectors)) 200))
  end.

Definition batch_route (request : result js) : action :=
  route (fun _ => json (ErrorBody failed_batch) 500) (batch_script request).

(** [app.post('/similarity', ...)], with the label of either file. *)
Definition similarity_script (label : float -> string) (request : result js)
  : script :=
  match parsed_body request with
  | Throw e => Return (Throw e)
  | Ok parsed =>
      let textA := property "textA" parsed in
      let textB := property "textB" parsed in
      let options := property "options" parsed in
      if negb (truthy textA) || negb (truthy textB)
         || negb (typeof_string textA) || negb (typeof_string textB) then
        Return (Ok (json (ErrorBody both_required) 400))
      else
        CallVectorizeBatch (JArray [textA; textB]) options
          (fun outcome =>
             vectors <- outcome ;;
             match vectors with
             | vectorA :: vectorB :: _ =>
                 similarity <- cosineSimilarity vectorA vectorB ;;
                 Ok (json (SimilarityBody textA textB similarity
                             (label similarity)) 200)
             | _ => Throw (reading_undefined engine)
             end)
  end.

Definition similarity_route (request : result js) : action :=
  route (fun _ => json (ErrorBody failed_similarity) 500)
    (similarity_script Labels.getSimilarity request).

Definition similarity_route_helpers (request : result js) : action :=
  route (fun _ => json (ErrorBody failed_similarity) 500)
    (similarity_script Labels.interpretation request).

(** [app.get('/info', ...)] *)
Definition info_route (s : Embedder.state) : action :=
  route (fun message => json (ErrorBody message) 500)
    (Return (Ok (json (InfoBody (Embedder.getModelInfo s)) 200))).

(** [app.get('/', ...)] *)
Definition root_route : action :=
  Respond (json (TextBody greeting) 200).

End Routes.

(** A string that is not empty: what the routes take for a text. *)
Definition nonempty_string (v : js) : bool :=
  match v with
  | JString s => negb (String.eqb s "")
  | _ => false
  end.

(** An array whose items are all strings. *)
Definition array_of_strings (v : js) : bool :=
  match v with
  | JArray items => forallb typeof_string items
  | _ => false
  end.

End Http.

(** * Facts about binary64 arithmetic *)

Module Binary64.

Import Number.

Local Open Scope Z_scope.

Lemma digits2_pos_bounds (m : positive) :
  2 ^ (Zpos (digits2_pos m) - 1) <= Zpos m < 2 ^ Zpos (digits2_pos m).
Proof.
  induction m as [p IH | p IH | ]; cbn [digits2_pos].
  - rewrite Pos2Z.inj_succ. change (Zpos p~1) with (2 * Zpos p + 1).
    replace (Z.succ (Zpos (digits2_pos p)) - 1)
      with (Z.succ (Zpos (digits2_pos p) - 1)) by lia.
    rewrite !Z.pow_succ_r by lia.
    destruct IH as [IH1 IH2]. split; lia.
  - rewrite Pos2Z.inj_succ. change (Zpos p~0) with (2 * Zpos p).
    replace (Z.succ (Zpos (digits2_pos p)) - 1)
      with (Z.succ (Zpos (digits2_pos p) - 1)) by lia.
    rewrite !Z.pow_succ_r by lia.
    destruct IH as [IH1 IH2]. split; lia.
  - cbn. lia.
Qed.

Lemma shr_1_m (r : shr_record) :
  0 <= shr_m r -> shr_m (shr_1 r) = shr_m r / 2.
Proof.
  destruct r as [m r s]; cbn [shr_m]; intros Hm.
  destruct m as [ | [p | p | ] | p ]; cbn [shr_1 shr_m]; try reflexivity.
  - change (Zpos p~1) with (2 * Zpos p + 1).
    apply Z.div_unique with (r := 1); lia.
  - change (Zpos p~0) with (2 * Zpos p).
    apply Z.div_unique with (r := 0); lia.
  - lia.
Qed.

Lemma shr_iter_m (n : positive) :
  forall r, 0 <= shr_m r ->
            shr_m (iter_pos shr_1 n r) = shr_m r / 2 ^ Zpos n.
Proof.
  induction n as [n IH | n IH | ]; intros r Hr; cbn [iter_pos].
  - assert (H1 : 0 <= shr_m (shr_1 r)).
    { rewrite shr_1_m by assumption. apply Z.div_pos; lia. }
    assert (H2 : 0 <= shr_m (iter_pos shr_1 n (shr_1 r))).
    { rewrite IH by assumption. apply Z.div_pos; [assumption | apply Z.pow_pos_nonneg; lia]. }
    rewrite IH, IH, shr_1_m by assumption.
    rewrite !Z.div_div by (try apply Z.pow_pos_nonneg; lia).
    f_equal. change (Zpos n~1) with (2 * Zpos n + 1).
    replace (2 * Zpos n + 1) with (1 + Zpos n + Zpos n) by lia.
    rewrite !Z.pow_add_r by lia. lia.
  - assert (H2 : 0 <= shr_m (iter_pos shr_1 n r)).
    { rewrite IH by assumption. apply Z.div_pos; [assumption | apply Z.pow_pos_nonneg; lia]. }
    rewrite IH, IH by assumption.
    rewrite !Z.div_div by (try apply Z.pow_pos_nonneg; lia).
    f_equal. change (Zpos n~0) with (2 * Zpos n).
    replace (2 * Zpos n) with (Zpos n + Zpos n) by lia.
    rewrite !Z.pow_add_r by lia. lia.
  - rewrite shr_1_m by assumption. reflexivity.
Qed.

Lemma shr_record_of_loc_m (m : Z) (l : location) :
  shr_m (shr_record_of_loc m l) = m.
Proof. destruct l as [ | [ | | ]]; reflexivity. Qed.

Lemma Zdigits2_bounds (m : Z) :
  0 < m -> 2 ^ (Zdigits2 m - 1) <= m < 2 ^ Zdigits2 m /\ 0 < Zdigits2 m.
Proof.
  destruct m as [ | p | p ]; try lia. intros _. cbn [Zdigits2].
  split; [apply digits2_pos_bounds | lia].
Qed.

(** Shifting a positive mantissa to its canonical exponent never loses it
    entirely, provided the exponent is not below the smallest one. *)
Lemma shr_fexp_pos (m e : Z) (l : location) :
  0 < m -> emin64 <= e ->
  0 < shr_m (fst (shr_fexp prec emax m e l)) /\
  emin64 <= snd (shr_fexp prec emax m e l).
Proof.
  intros Hm He. unfold shr_fexp, shr.
  destruct (Zdigits2_bounds m Hm) as [[Hlo Hhi] Hd].
  remember (Zdigits2 m) as d.
  destruct (fexp prec emax (d + e) - e) as [ | p | p ] eqn:Hn; cbn [fst snd];
    rewrite ?shr_record_of_loc_m; try (split; assumption).
  rewrite shr_iter_m by (rewrite shr_record_of_loc_m; lia).
  rewrite shr_record_of_loc_m.
  unfold fexp, SpecFloat.emin, prec, emax, emin64 in *.
  split; [ | lia].
  assert (Hp : Zpos p <= d - 1) by lia.
  assert (H2 : 2 ^ Zpos p <= 2 ^ (d - 1)) by (apply Z.pow_le_mono_r; lia).
  assert (H3 : 0 < 2 ^ Zpos p) by (apply Z.pow_pos_nonneg; lia).
  apply Z.div_str_pos. lia.
Qed.

Lemma round_nearest_even_ge (m : Z) (l : location) :
  m <= round_nearest_even m l.
Proof.
  destruct l as [ | [ | | ]]; cbn [round_nearest_even]; try lia.
  destruct (Z.even m); lia.
Qed.

(** Rounding a positive mantissa at an exponent that is not below the
    smallest one yields a non-zero number of the requested sign. *)
Lemma binary_round_aux_pos (s : bool) (m e : Z) (l : location) :
  0 < m -> emin64 <= e ->
  (exists m' e', binary_round_aux prec emax s m e l = S754_finite s m' e') \/
  binary_round_aux prec emax s m e l = S754_infinity s.
Proof.
  intros Hm He. unfold binary_round_aux.
  destruct (shr_fexp_pos m e l Hm He) as [H1 H2].
  destruct (shr_fexp prec emax m e l) as [r1 e1]; cbn [fst snd] in H1, H2.
  pose proof (round_nearest_even_ge (shr_m r1) (loc_of_shr_record r1)) as Hr.
  remember (round_nearest_even (shr_m r1) (loc_of_shr_record r1)) as m1.
  assert (Hm1 : 0 < m1) by lia.
  destruct (shr_fexp_pos m1 e1 loc_Exact Hm1 H2) as [H3 H4].
  destruct (shr_fexp prec emax m1 e1 loc_Exact) as [r2 e2]; cbn [fst snd] in H3, H4.
  destruct (shr_m r2) as [ | p | p ]; try lia.
  destruct (e2 <=? emax - prec); [left; eauto | right; reflexivity].
Qed.


(** *** Valid binary64 numbers and their order *)

Lemma bounded_facts (m : positive) (e : Z) :
  bounded prec emax m e = true ->
  emin64 <= e <= 971 /\ Zpos m < 2 ^ 53 /\ (emin64 < e -> 2 ^ 52 <= Zpos m).
Proof.
  unfold bounded, canonical_mantissa, fexp, SpecFloat.emin, prec, emax, emin64.
  intros H. apply andb_prop in H. destruct H as [Hc He].
  apply Z.eqb_eq in Hc. apply Z.leb_le in He.
  pose proof (digits2_pos_bounds m) as [Hlo Hhi].
  remember (Zpos (digits2_pos m)) as d.
  assert (Hd : 0 < d) by lia.
  split; [lia | split].
  - assert (2 ^ d <= 2 ^ 53) by (apply Z.pow_le_mono_r; lia). lia.
  - intros Hlt. assert (Hd53 : d = 53) by lia.
    rewrite Hd53 in Hlo. exact Hlo.
Qed.

Lemma finite_key_bounds (m : positive) (e : Z) :
  bounded prec emax m e = true ->
  0 < Zpos m * 2 ^ (e + 1074) < 2 ^ 2098.
Proof.
  intros H. destruct (bounded_facts m e H) as [He [Hm _]].
  unfold emin64 in He.
  assert (Hp : 0 < 2 ^ (e + 1074)) by (apply Z.pow_pos_nonneg; lia).
  assert (Hq : 2 ^ (e + 1074) <= 2 ^ 2045) by (apply Z.pow_le_mono_r; lia).
  replace (2 ^ 2098) with (2 ^ 53 * 2 ^ 2045)
    by (rewrite <- Z.pow_add_r by lia; reflexivity).
  split; [lia | ].
  apply Z.lt_le_trans with (2 ^ 53 * 2 ^ (e + 1074)).
  - apply Z.mul_lt_mono_pos_r; assumption.
  - apply Z.mul_le_mono_nonneg_l; [lia | assumption].
Qed.

Lemma finite_key_lt (m1 m2 : positive) (e1 e2 : Z) :
  bounded prec emax m1 e1 = true -> bounded prec emax m2 e2 = true ->
  e1 < e2 ->
  Zpos m1 * 2 ^ (e1 + 1074) < Zpos m2 * 2 ^ (e2 + 1074).
Proof.
  intros H1 H2 Hlt.
  destruct (bounded_facts m1 e1 H1) as [He1 [Hm1 _]].
  destruct (bounded_facts m2 e2 H2) as [He2 [_ Hm2]].
  unfold emin64 in *.
  specialize (Hm2 ltac:(lia)).
  assert (Hp : 0 < 2 ^ (e1 + 1074)) by (apply Z.pow_pos_nonneg; lia).
  replace (e2 + 1074) with ((e2 - e1 - 1) + 1 + (e1 + 1074)) by lia.
  rewrite (Z.pow_add_r 2 (e2 - e1 - 1 + 1) (e1 + 1074)) by lia.
  rewrite (Z.pow_add_r 2 (e2 - e1 - 1) 1) by lia.
  assert (Hq : 0 < 2 ^ (e2 - e1 - 1)) by (apply Z.pow_pos_nonneg; lia).
  change (2 ^ 1) with 2.
  remember (2 ^ (e1 + 1074)) as P. remember (2 ^ (e2 - e1 - 1)) as Q.
  change (2 ^ 53) with (2 * 2 ^ 52) in Hm1.
  remember (2 ^ 52) as B.
  apply Z.lt_le_trans with (2 * B * P); [nia | ].
  assert (B * P <= Zpos m2 * P) by nia.
  assert (Zpos m2 * P <= Zpos m2 * P * Q) by nia.
  nia.
Qed.

Lemma compare_scale (a b p : Z) : 0 < p -> (a * p ?= b * p) = (a ?= b).
Proof.
  intros Hp. destruct (Z.compare_spec a b) as [H | H | H];
    [apply Z.compare_eq_iff | apply Z.compare_lt_iff | apply Z.compare_gt_iff];
    nia.
Qed.

Lemma SFcompare_key (x y : spec_float) :
  valid_binary x = true -> valid_binary y = true ->
  SFis_nan x = false -> SFis_nan y = false ->
  SFcompare x y = Some (SFkey x ?= SFkey y).
Proof.
  intros Vx Vy Nx Ny.
  destruct x as [sx | sx | | sx mx ex]; try discriminate Nx;
    destruct y as [sy | sy | | sy my ey]; try discriminate Ny;
    cbn [valid_binary] in Vx, Vy;
    try pose proof (finite_key_bounds _ _ Vx) as Kx;
    try pose proof (finite_key_bounds _ _ Vy) as Ky;
    assert (Hinf : 0 < 2 ^ 2098) by (apply Z.pow_pos_nonneg; lia);
    cbn [SFcompare SFkey]; f_equal.
  all: try (destruct sx; try destruct sy; cbn [cond_Zopp]; symmetry;
            first [ apply Z.compare_eq_iff; lia
                  | apply Z.compare_lt_iff; lia
                  | apply Z.compare_gt_iff; lia ]).
  all: try (destruct sy; cbn [cond_Zopp]; symmetry;
            first [ apply Z.compare_eq_iff; lia
                  | apply Z.compare_lt_iff; lia
                  | apply Z.compare_gt_iff; lia ]).
  (* two finite numbers of the same sign *)
  all: rewrite Pos.compare_cont_spec; cbn [Pos.switch_Eq].
  all: destruct (Z.compare_spec ex ey) as [Heq | Hlt | Hgt].
  all: try (subst ey; assert (Hp : 0 < 2 ^ (ex + 1074))
              by (destruct (bounded_facts _ _ Vx) as [? _]; unfold emin64 in *;
                  apply Z.pow_pos_nonneg; lia)).
  all: try pose proof (finite_key_lt _ _ _ _ Vx Vy ltac:(assumption)) as HK.
  all: try pose proof (finite_key_lt _ _ _ _ Vy Vx ltac:(lia)) as HK.
  all: destruct sx, sy; cbn [cond_Zopp Pos.switch_Eq CompOpp].
  all: try (symmetry;
            first [ apply Z.compare_lt_iff; lia | apply Z.compare_gt_iff; lia ]).
  - rewrite Z.compare_opp, compare_scale by assumption.
    rewrite <- Pos2Z.inj_compare, (Pos.compare_antisym mx my).
    destruct (mx ?= my)%positive; reflexivity.
  - rewrite compare_scale by assumption.
    rewrite <- Pos2Z.inj_compare.
    destruct (mx ?= my)%positive; reflexivity.
Qed.


(** *** Subtraction and the sign of its result *)

Lemma iter_xO_value (d m : positive) :
  Zpos (Pos.iter xO m d) = Zpos m * 2 ^ Zpos d.
Proof.
  induction d as [ | d IH ] using Pos.peano_ind.
  - cbn [Pos.iter]. change (2 ^ 1) with 2. lia.
  - rewrite Pos.iter_succ, Pos2Z.inj_succ, Z.pow_succ_r by lia.
    change (Zpos (Pos.iter xO m d)~0) with (2 * Zpos (Pos.iter xO m d)).
    rewrite IH. lia.
Qed.

Lemma shl_align_value (m : positive) (e e' : Z) :
  e' <= e ->
  Zpos (fst (shl_align m e e')) = Zpos m * 2 ^ (e - e') /\
  snd (shl_align m e e') = e'.
Proof.
  intros Hle. unfold shl_align.
  destruct (e' - e) as [ | d | d ] eqn:Hd; cbn [fst snd]; try lia.
  - replace (e - e') with 0 by lia. cbn. lia.
  - rewrite iter_xO_value. replace (e - e') with (Zpos d) by lia.
    split; reflexivity.
Qed.

Lemma shl_align_exponent (m : positive) (e e' : Z) :
  emin64 <= e -> emin64 <= e' -> emin64 <= snd (shl_align m e e').
Proof.
  intros He He'. unfold shl_align.
  destruct (e' - e); cbn [snd]; assumption.
Qed.

Lemma binary_round_pos (s : bool) (m : positive) (e : Z) :
  emin64 <= e ->
  (exists m' e', binary_round prec emax s m e = S754_finite s m' e') \/
  binary_round prec emax s m e = S754_infinity s.
Proof.
  intros He. unfold binary_round.
  pose proof (shl_align_exponent m e
                (fexp prec emax (Zpos (digits2_pos m) + e)) He) as Hz.
  destruct (shl_align m e (fexp prec emax (Zpos (digits2_pos m) + e)))
    as [mz ez]; cbn [snd] in Hz.
  apply binary_round_aux_pos; [lia | ].
  apply Hz. unfold fexp, SpecFloat.emin, prec, emax, emin64. lia.
Qed.

Lemma binary_normalize_positive (m e : Z) :
  emin64 <= e ->
  SFpositive (binary_normalize prec emax m e false) = (0 <? m).
Proof.
  intros He. destruct m as [ | p | p ]; cbn [binary_normalize].
  - reflexivity.
  - destruct (binary_round_pos false p e He) as [[m' [e' H]] | H];
      rewrite H; reflexivity.
  - destruct (binary_round_pos true p e He) as [[m' [e' H]] | H];
      rewrite H; reflexivity.
Qed.

Lemma aligned_key (s : bool) (m : positive) (e ez : Z) :
  emin64 <= ez -> ez <= e ->
  SFkey (S754_finite s m e) =
  cond_Zopp s (Zpos (fst (shl_align m e ez))) * 2 ^ (ez + 1074).
Proof.
  intros Hz Hle. destruct (shl_align_value m e ez Hle) as [Hv _].
  rewrite Hv. cbn [SFkey]. unfold emin64 in Hz.
  replace (e + 1074) with ((e - ez) + (ez + 1074)) by lia.
  rewrite Z.pow_add_r by lia.
  destruct s; cbn [cond_Zopp]; lia.
Qed.

(** [y - x] is strictly positive exactly when [x] is below [y]. *)
Lemma SFsub_positive (x y : spec_float) :
  valid_binary x = true -> valid_binary y = true ->
  SFis_nan x = false -> SFis_nan y = false ->
  SFpositive (SFsub prec emax y x) = (SFkey x <? SFkey y).
Proof.
  intros Vx Vy Nx Ny.
  destruct x as [sx | sx | | sx mx ex]; try discriminate Nx;
    destruct y as [sy | sy | | sy my ey]; try discriminate Ny;
    cbn [valid_binary] in Vx, Vy;
    try pose proof (finite_key_bounds _ _ Vx) as Kx;
    try pose proof (finite_key_bounds _ _ Vy) as Ky;
    assert (Hinf : 0 < 2 ^ 2098) by (apply Z.pow_pos_nonneg; lia).
  9: {
    cbn [SFsub].
    destruct (bounded_facts _ _ Vx) as [Hex _].
    destruct (bounded_facts _ _ Vy) as [Hey _].
    assert (Hz : emin64 <= Z.min ey ex) by lia.
    rewrite binary_normalize_positive by assumption.
    rewrite (aligned_key sx mx ex (Z.min ey ex)) by lia.
    rewrite (aligned_key sy my ey (Z.min ey ex)) by lia.
    assert (Hp : 0 < 2 ^ (Z.min ey ex + 1074))
      by (unfold emin64 in *; apply Z.pow_pos_nonneg; lia).
    remember (2 ^ (Z.min ey ex + 1074)) as P.
    remember (cond_Zopp sx (Zpos (fst (shl_align mx ex (Z.min ey ex))))) as X.
    remember (cond_Zopp sy (Zpos (fst (shl_align my ey (Z.min ey ex))))) as Y.
    destruct (Z.ltb_spec 0 (Y - X)); destruct (Z.ltb_spec (X * P) (Y * P));
      try reflexivity; nia. }
  all: cbn [SFsub SFkey SFpositive SFltb SFcompare].
  all: destruct sx; try destruct sy; cbn [cond_Zopp negb SFcompare];
    symmetry;
    first [ apply Z.ltb_lt; lia | apply Z.ltb_ge; lia ].
Qed.


(** *** The same facts on primitive floats *)

Local Open Scope float_scope.

Lemma SFcompare_refl (x : spec_float) :
  SFis_nan x = false -> SFcompare x x = Some Eq.
Proof.
  destruct x as [s | s | | s m e]; try discriminate; intros _;
    cbn [SFcompare]; try (destruct s; reflexivity).
  rewrite Z.compare_refl, Pos.compare_cont_refl. destruct s; reflexivity.
Qed.

Lemma is_nan_spec (x : float) : is_nan x = SFis_nan (Prim2SF x).
Proof.
  unfold is_nan. rewrite eqb_spec. unfold SFeqb.
  destruct (SFis_nan (Prim2SF x)) eqn:H.
  - destruct (Prim2SF x); try discriminate H. reflexivity.
  - rewrite SFcompare_refl by assumption. reflexivity.
Qed.

Section Order.
Variables x y : float.
Hypothesis Hx : is_nan x = false.
Hypothesis Hy : is_nan y = false.

Lemma compare_key :
  SFcompare (Prim2SF x) (Prim2SF y) = Some (key x ?= key y)%Z.
Proof.
  rewrite is_nan_spec in Hx, Hy.
  apply SFcompare_key; auto using Prim2SF_valid.
Qed.

Lemma ltb_key : (x <? y) = (key x <? key y)%Z.
Proof.
  rewrite ltb_spec. unfold SFltb, Z.ltb. rewrite compare_key.
  destruct (key x ?= key y)%Z; reflexivity.
Qed.

Lemma leb_key : (x <=? y) = (key x <=? key y)%Z.
Proof.
  rewrite leb_spec. unfold SFleb, Z.leb. rewrite compare_key.
  destruct (key x ?= key y)%Z; reflexivity.
Qed.

Lemma eqb_key : (x =? y) = (key x =? key y)%Z.
Proof.
  rewrite eqb_spec, Z.eqb_compare. unfold SFeqb. rewrite compare_key.
  destruct (key x ?= key y)%Z; reflexivity.
Qed.

Lemma sub_positive : (0 <? y - x) = (key x <? key y)%Z.
Proof.
  rewrite ltb_spec, sub_spec.
  change (Prim2SF 0) with (S754_zero false).
  rewrite is_nan_spec in Hx, Hy.
  apply SFsub_positive; auto using Prim2SF_valid.
Qed.
End Order.


(** *** Square roots *)

Local Open Scope Z_scope.

Lemma SFsqrt_core_pos (m : positive) (e : Z) :
  emin64 <= e ->
  0 < fst (fst (SFsqrt_core_binary prec emax (Zpos m) e)) /\
  emin64 <= snd (fst (SFsqrt_core_binary prec emax (Zpos m) e)).
Proof.
  intros He. unfold SFsqrt_core_binary.
  set (e' := Z.min (fexp prec emax (Z.div2 (Zdigits2 (Zpos m) + e + 1)))
                   (Z.div2 e)).
  assert (He' : emin64 <= e' /\ 2 * e' <= e).
  { subst e'. rewrite !Z.div2_div.
    unfold fexp, SpecFloat.emin, prec, emax, emin64 in *.
    Z.div_mod_to_equations. lia. }
  set (m' := match e - 2 * e' with
             | Zpos _ => Z.shiftl (Zpos m) (e - 2 * e')
             | 0 => Zpos m
             | Zneg _ => 0
             end).
  assert (Hm' : 0 < m').
  { subst m'. destruct (e - 2 * e') as [ | p | p ] eqn:Hs; try lia.
    rewrite Z.shiftl_mul_pow2 by lia.
    assert (0 < 2 ^ Zpos p) by (apply Z.pow_pos_nonneg; lia). nia. }
  pose proof (Z.sqrtrem_spec m' ltac:(lia)) as Hspec.
  destruct (Z.sqrtrem m') as [q r]. cbn [fst snd].
  split; [nia | apply He'].
Qed.

Lemma SFsqrt_zero (x : spec_float) :
  valid_binary x = true ->
  SFeqb (SFsqrt prec emax x) (S754_zero false) = SFeqb x (S754_zero false).
Proof.
  intros V. destruct x as [s | s | | s m e]; try (destruct s; reflexivity).
  - reflexivity.
  - cbn [valid_binary] in V. destruct (bounded_facts _ _ V) as [He _].
    destruct s; [reflexivity | ]. cbn [SFsqrt].
    destruct (SFsqrt_core_pos m e ltac:(lia)) as [Hq He'].
    destruct (SFsqrt_core_binary prec emax (Zpos m) e) as [[q e'] l].
    cbn [fst snd] in Hq, He'.
    destruct (binary_round_aux_pos false q e' l Hq He') as [[m' [e'' H]] | H];
      rewrite H; reflexivity.
Qed.

(** A square root is [NaN], a zero, or a positive number. *)
Lemma SFsqrt_not_negative (x : spec_float) :
  SFltb (SFsqrt prec emax x) (S754_zero false) = false.
Proof.
  destruct x as [s | s | | s m e]; try (destruct s; reflexivity);
    try reflexivity.
  destruct s; [reflexivity | ]. cbn [SFsqrt].
  destruct (SFsqrt_core_binary prec emax (Zpos m) e) as [[q e'] l].
  unfold binary_round_aux.
  destruct (shr_fexp prec emax q e' l) as [r1 e1].
  destruct (shr_fexp prec emax _ e1 loc_Exact) as [r2 e2].
  destruct (shr_m r2); try reflexivity.
  destruct (e2 <=? emax - prec); reflexivity.
Qed.

(** *** Differences *)

Lemma SFsub_self (x : spec_float) :
  SFis_finite x = true -> SFsub prec emax x x = S754_zero false.
Proof.
  destruct x as [s | s | | s m e]; try discriminate; intros _; cbn [SFsub].
  - destruct s; reflexivity.
  - rewrite Z.min_id, Z.sub_diag. reflexivity.
Qed.

Lemma SFmul_binary_round_sign (s : bool) (m : positive) (e : Z) :
  SFmul prec emax (binary_round prec emax s m e) (binary_round prec emax s m e)
  = SFmul prec emax (binary_round prec emax false m e)
                    (binary_round prec emax false m e).
Proof.
  unfold binary_round.
  destruct (shl_align m e (fexp prec emax (Zpos (digits2_pos m) + e)))
    as [mz ez].
  unfold binary_round_aux.
  destruct (shr_fexp prec emax (Zpos mz) ez loc_Exact) as [r1 e1].
  destruct (shr_fexp prec emax _ e1 loc_Exact) as [r2 e2].
  destruct (shr_m r2); try (destruct s; reflexivity).
  destruct (e2 <=? emax - prec); destruct s; reflexivity.
Qed.

Lemma SFsub_square_sym (x y : spec_float) :
  SFmul prec emax (SFsub prec emax x y) (SFsub prec emax x y) =
  SFmul prec emax (SFsub prec emax y x) (SFsub prec emax y x).
Proof.
  destruct x as [sx | sx | | sx mx ex], y as [sy | sy | | sy my ey];
    try reflexivity;
    try (destruct sx; try destruct sy; reflexivity);
    try (destruct sy; reflexivity).
  cbn [SFsub]. rewrite (Z.min_comm ey ex).
  set (X := cond_Zopp sx (Zpos (fst (shl_align mx ex (Z.min ex ey))))).
  set (Y := cond_Zopp sy (Zpos (fst (shl_align my ey (Z.min ex ey))))).
  replace (Y - X) with (- (X - Y)) by lia.
  destruct (X - Y) as [ | p | p ]; cbn [Z.opp binary_normalize];
    try reflexivity.
  - symmetry. apply SFmul_binary_round_sign.
  - apply SFmul_binary_round_sign.
Qed.

Local Open Scope float_scope.

Lemma sqrt_eq_zero (x : float) : (sqrt x =? 0) = (x =? 0).
Proof.
  rewrite !eqb_spec, sqrt_spec.
  change (Prim2SF 0) with (S754_zero false).
  apply SFsqrt_zero, Prim2SF_valid.
Qed.

Lemma sqrt_not_negative (x : float) : (sqrt x <? 0) = false.
Proof.
  rewrite ltb_spec, sqrt_spec.
  change (Prim2SF 0) with (S754_zero false).
  apply SFsqrt_not_negative.
Qed.

Lemma sub_square_sym (x y : float) :
  (x - y) * (x - y) = (y - x) * (y - x).
Proof.
  apply Prim2SF_inj. rewrite !mul_spec, !sub_spec. apply SFsub_square_sym.
Qed.

(** *** Signs of rounded results *)

Local Open Scope Z_scope.

Lemma shr_fexp_nonneg (m e : Z) (l : location) :
  0 <= m -> 0 <= shr_m (fst (shr_fexp prec emax m e l)).
Proof.
  intros Hm. unfold shr_fexp, shr.
  destruct (fexp prec emax (Zdigits2 m + e) - e) as [ | p | p ];
    cbn [fst]; rewrite ?shr_record_of_loc_m; try assumption.
  rewrite shr_iter_m by (rewrite shr_record_of_loc_m; assumption).
  rewrite shr_record_of_loc_m.
  apply Z.div_pos; [assumption | apply Z.pow_pos_nonneg; lia].
Qed.

Lemma binary_round_aux_signed (s : bool) (m e : Z) (l : location) :
  0 <= m -> SFsigned s (binary_round_aux prec emax s m e l) = true.
Proof.
  intros Hm. unfold binary_round_aux.
  pose proof (shr_fexp_nonneg m e l Hm) as H1.
  destruct (shr_fexp prec emax m e l) as [r1 e1]; cbn [fst] in H1.
  pose proof (round_nearest_even_ge (shr_m r1) (loc_of_shr_record r1)) as Hr.
  remember (round_nearest_even (shr_m r1) (loc_of_shr_record r1)) as m1.
  pose proof (shr_fexp_nonneg m1 e1 loc_Exact ltac:(lia)) as H2.
  destruct (shr_fexp prec emax m1 e1 loc_Exact) as [r2 e2]; cbn [fst] in H2.
  destruct (shr_m r2) as [ | p | p ]; try lia.
  - destruct s; reflexivity.
  - destruct (e2 <=? emax - prec); destruct s; reflexivity.
Qed.

Lemma binary_round_signed (s : bool) (m : positive) (e : Z) :
  SFsigned s (binary_round prec emax s m e) = true.
Proof.
  unfold binary_round.
  destruct (shl_align m e (fexp prec emax (Zpos (digits2_pos m) + e))).
  apply binary_round_aux_signed. lia.
Qed.

Lemma SFsigned_nonneg (x : spec_float) :
  SFsigned false x = true -> SFnonneg x = true.
Proof. destruct x as [s | s | | s m e]; try destruct s; auto. Qed.

Lemma SFsigned_not_nan (s : bool) (x : spec_float) :
  SFsigned s x = true -> SFis_nan x = false.
Proof. destruct x; auto. Qed.

Lemma SFmul_self_nonneg (x : spec_float) :
  SFis_nan x = false -> SFnonneg (SFmul prec emax x x) = true.
Proof.
  destruct x as [s | s | | s m e]; try discriminate; intros _;
    try (destruct s; reflexivity).
  cbn [SFmul]. apply SFsigned_nonneg.
  replace (xorb s s) with false by (destruct s; reflexivity).
  apply binary_round_aux_signed. lia.
Qed.

Lemma SFadd_nonneg (x y : spec_float) :
  SFnonneg x = true -> SFnonneg y = true ->
  SFnonneg (SFadd prec emax x y) = true.
Proof.
  destruct x as [sx | sx | | sx mx ex], y as [sy | sy | | sy my ey];
    try discriminate; try (destruct sx; try destruct sy; auto; fail);
    try (destruct sy; auto; fail).
  destruct sx, sy; try discriminate. intros _ _.
  cbn [SFadd cond_Zopp Z.add binary_normalize].
  apply SFsigned_nonneg, binary_round_signed.
Qed.

Lemma SFsub_finite_not_nan (x y : spec_float) :
  SFis_finite x = true -> SFis_finite y = true ->
  SFis_nan (SFsub prec emax x y) = false.
Proof.
  destruct x as [sx | sx | | sx mx ex], y as [sy | sy | | sy my ey];
    try discriminate; intros _ _;
    try (destruct sx; try destruct sy; reflexivity); try reflexivity.
  cbn [SFsub].
  destruct (cond_Zopp sx (Zpos (fst (shl_align mx ex (Z.min ex ey)))) -
            cond_Zopp sy (Zpos (fst (shl_align my ey (Z.min ex ey)))));
    cbn [binary_normalize]; try reflexivity;
    eapply SFsigned_not_nan, binary_round_signed.
Qed.

Lemma SFsqrt_nonneg (x : spec_float) :
  SFnonneg x = true -> SFleb (S754_zero false) (SFsqrt prec emax x) = true.
Proof.
  destruct x as [s | s | | s m e]; try discriminate;
    try (destruct s; try discriminate; reflexivity).
  destruct s; [discriminate | intros _ ]. cbn [SFsqrt].
  assert (Hq : 0 <= fst (fst (SFsqrt_core_binary prec emax (Zpos m) e))).
  { unfold SFsqrt_core_binary.
    set (sh := e - 2 * _).
    set (m' := match sh with
               | Zpos _ => Z.shiftl (Zpos m) sh
               | 0 => Zpos m
               | Zneg _ => 0
               end).
    assert (Hm' : 0 <= m').
    { subst m'. destruct sh; try lia. apply Z.shiftl_nonneg. lia. }
    pose proof (Z.sqrtrem_spec m' Hm') as Hspec.
    destruct (Z.sqrtrem m') as [q r]. cbn [fst]. lia. }
  destruct (SFsqrt_core_binary prec emax (Zpos m) e) as [[q e'] l].
  cbn [fst] in Hq.
  pose proof (binary_round_aux_signed false q e' l Hq) as H.
  destruct (binary_round_aux prec emax false q e' l) as [s | s | | s m1 e1];
    try discriminate H; destruct s; try discriminate H; reflexivity.
Qed.

Local Open Scope float_scope.

Lemma sub_self (x : float) : finite x = true -> x - x = 0.
Proof.
  intros H. apply Prim2SF_inj. rewrite sub_spec.
  change (Prim2SF 0) with (S754_zero false). apply SFsub_self, H.
Qed.

Lemma finite_not_nan (x : float) : finite x = true -> is_nan x = false.
Proof.
  rewrite is_nan_spec. unfold finite. destruct (Prim2SF x); auto.
Qed.

Lemma square_difference_nonneg (x y : float) :
  finite x = true -> finite y = true -> nonneg ((x - y) * (x - y)) = true.
Proof.
  intros Hx Hy. unfold nonneg. rewrite mul_spec, sub_spec.
  apply SFmul_self_nonneg, SFsub_finite_not_nan; assumption.
Qed.

Lemma add_nonneg (x y : float) :
  nonneg x = true -> nonneg y = true -> nonneg (x + y) = true.
Proof.
  unfold nonneg. rewrite add_spec. apply SFadd_nonneg.
Qed.

Lemma sqrt_nonneg (x : float) : nonneg x = true -> (0 <=? sqrt x) = true.
Proof.
  unfold nonneg. rewrite leb_spec, sqrt_spec.
  change (Prim2SF 0) with (S754_zero false). apply SFsqrt_nonneg.
Qed.

End Binary64.

(** * Outcomes *)

Lemma Ok_inj {A : Type} (a b : A) : Ok a = Ok b -> a = b.
Proof.
  intros H.
  exact (f_equal (fun r => match r with Ok x => x | Throw _ => a end) H).
Qed.

(** * The loops and what they compute *)
Module Loops.

Import VectorMath.
Open Scope float_scope.

Lemma for_loop_combine {S : Type} (f : S -> float -> float -> S) :
  forall (a b pa pb : Vector) (s : S),
    length a = length b -> length pa = length pb ->
    for_loop (length a) (length pa)
      (fun i s => f s (get (pa ++ a) i) (get (pb ++ b) i)) s
    = fold_left (fun s xy => f s (fst xy) (snd xy)) (combine a b) s.
Proof.
  induction a as [ | x a IH ]; intros [ | y b ] pa pb s Hab Hp;
    try discriminate Hab; [reflexivity | ].
  assert (Hx : get (pa ++ x :: a) (length pa) = x)
    by (unfold get; apply nth_middle).
  assert (Hy : get (pb ++ y :: b) (length pa) = y)
    by (unfold get; rewrite Hp; apply nth_middle).
  cbn [length for_loop combine fold_left fst snd]. rewrite Hx, Hy.
  replace (pa ++ x :: a) with ((pa ++ [x]) ++ a)
    by (rewrite <- app_assoc; reflexivity).
  replace (pb ++ y :: b) with ((pb ++ [y]) ++ b)
    by (rewrite <- app_assoc; reflexivity).
  replace (Datatypes.S (length pa)) with (length (pa ++ [x]))
    by (rewrite length_app; cbn; lia).
  apply IH.
  - injection Hab. auto.
  - rewrite !length_app. cbn. lia.
Qed.

Lemma fold_left_combine_fst {S : Type} (g : S -> float -> S) :
  forall (a b : Vector) (s : S),
    length a = length b ->
    fold_left (fun s xy => g s (fst xy)) (combine a b) s = fold_left g a s.
Proof.
  induction a as [ | x a IH ]; intros [ | y b ] s H; try discriminate H;
    [reflexivity | ].
  cbn. apply IH. injection H. auto.
Qed.

Lemma fold_left_combine_snd {S : Type} (g : S -> float -> S) :
  forall (a b : Vector) (s : S),
    length a = length b ->
    fold_left (fun s xy => g s (snd xy)) (combine a b) s = fold_left g b s.
Proof.
  induction a as [ | x a IH ]; intros [ | y b ] s H; try discriminate H;
    [reflexivity | ].
  cbn. apply IH. injection H. auto.
Qed.

(** A loop over three accumulators is three loops over one. *)
Lemma fold_cosine_acc (l : list (float * float)) :
  forall acc,
    fold_left
      (fun acc xy =>
         {| dotProduct := dotProduct acc + fst xy * snd xy;
            normA := normA acc + fst xy * fst xy;
            normB := normB acc + snd xy * snd xy |}) l acc
    = {| dotProduct :=
           fold_left (fun s xy => s + fst xy * snd xy) l (dotProduct acc);
         normA :=
           fold_left (fun s xy => s + fst xy * fst xy) l (normA acc);
         normB :=
           fold_left (fun s xy => s + snd xy * snd xy) l (normB acc) |}.
Proof.
  induction l as [ | xy l IH ]; intros acc; cbn [fold_left].
  - destruct acc; reflexivity.
  - rewrite IH. reflexivity.
Qed.

Lemma cosine_loop_spec (a b : Vector) :
  length a = length b ->
  cosine_loop a b =
  {| dotProduct := dot a b; normA := sum_squares a; normB := sum_squares b |}.
Proof.
  intros H. unfold cosine_loop.
  change (for_loop (length a) 0 (cosine_body a b))
    with (for_loop (length a) (length (@nil float))
            (fun i acc =>
               (fun acc x y =>
                  {| dotProduct := dotProduct acc + x * y;
                     normA := normA acc + x * x;
                     normB := normB acc + y * y |})
                 acc (get ([] ++ a) i) (get ([] ++ b) i))).
  rewrite for_loop_combine by (assumption || reflexivity).
  rewrite (fold_cosine_acc (combine a b)). cbn [dotProduct normA normB].
  unfold dot, sum_squares. f_equal.
  - apply (fold_left_combine_fst (fun s x => s + x * x)); assumption.
  - apply (fold_left_combine_snd (fun s y => s + y * y)); assumption.
Qed.

Lemma euclid_loop_spec (a b : Vector) :
  length a = length b ->
  for_loop (length a) 0 (euclid_body a b) 0 = squared_distance a b.
Proof.
  intros H.
  change (for_loop (length a) 0 (euclid_body a b))
    with (for_loop (length a) (length (@nil float))
            (fun i sum =>
               (fun sum x y => sum + (x - y) * (x - y))
                 sum (get ([] ++ a) i) (get ([] ++ b) i))).
  rewrite for_loop_combine by (assumption || reflexivity).
  reflexivity.
Qed.

End Loops.

(** * [cosineSimilarity] and [euclideanDistance] *)

Module Metrics.

Import Number VectorMath.
Open Scope float_scope.

Lemma squared_distance_sym (a b : Vector) :
  squared_distance a b = squared_distance b a.
Proof.
  unfold squared_distance. generalize 0.
  revert b. induction a as [ | x a IH ]; intros [ | y b ] s;
    try reflexivity.
  cbn [combine fold_left fst snd].
  rewrite (Binary64.sub_square_sym x y). apply IH.
Qed.

Lemma squared_distance_self (a : Vector) :
  Forall (fun x => finite x = true) a -> squared_distance a a = 0.
Proof.
  unfold squared_distance. induction 1 as [ | x a Hx Ha IH ];
    [reflexivity | ].
  cbn [combine fold_left fst snd].
  rewrite (Binary64.sub_self x Hx). exact IH.
Qed.

Lemma fold_squares_nonneg (a b : Vector) :
  Forall (fun x => finite x = true) a ->
  Forall (fun x => finite x = true) b ->
  forall s, nonneg s = true ->
    nonneg (fold_left
              (fun s xy => s + (fst xy - snd xy) * (fst xy - snd xy))
              (combine a b) s) = true.
Proof.
  intros Ha. revert b. induction Ha as [ | x a Hx Ha IH ];
    intros b Hb s Hs; [exact Hs | ].
  destruct Hb as [ | y b Hy Hb ]; [exact Hs | ].
  cbn [combine fold_left fst snd]. apply IH; [assumption | ].
  apply Binary64.add_nonneg; [assumption | ].
  apply Binary64.square_difference_nonneg; assumption.
Qed.

Lemma cosineSimilarity_returns (a b : Vector) :
  length a = length b -> exists s, cosineSimilarity a b = Ok s.
Proof.
  intros H. unfold cosineSimilarity. rewrite H, Nat.eqb_refl. cbn [negb].
  destruct ((normA _ =? 0) || (normB _ =? 0)); eexists; reflexivity.
Qed.

Lemma cosineSimilarity_throws (a b : Vector) :
  length a <> length b -> cosineSimilarity a b = Throw same_length_error.
Proof.
  intros H. unfold cosineSimilarity.
  apply Nat.eqb_neq in H. rewrite H. reflexivity.
Qed.

End Metrics.

Import Number VectorMath.
Open Scope float_scope.

(** C3.  [cosineSimilarity a b] throws the length-mismatch error exactly
    when the two lengths differ.  For equal lengths it returns [0] when the
    norm of either vector is exactly zero, and otherwise the dot product
    divided by the product of the two norms (all of them as computed in
    binary64, summing from the first component on). *)
Theorem cosineSimilarity_spec (a b : Vector) :
  (cosineSimilarity a b = Throw same_length_error <-> length a <> length b) /\
  (length a = length b ->
   cosineSimilarity a b =
   Ok (if (norm a =? 0) || (norm b =? 0) then 0
       else dot a b / (norm a * norm b))).
Proof.
  unfold cosineSimilarity.
  destruct (Nat.eqb (length a) (length b)) eqn:E; cbn [negb].
  - apply Nat.eqb_eq in E. rewrite (Loops.cosine_loop_spec a b E).
    cbn [dotProduct normA normB]. unfold norm.
    rewrite !Binary64.sqrt_eq_zero.
    split.
    + split; [ | intros H; contradiction].
      destruct ((sum_squares a =? 0) || (sum_squares b =? 0)); discriminate.
    + intros _. destruct ((sum_squares a =? 0) || (sum_squares b =? 0));
        reflexivity.
  - apply Nat.eqb_neq in E. split.
    + split; [intros _; exact E | reflexivity].
    + intros H. contradiction.
Qed.

Lemma cosineSimilarity_spec_witness :
  length [3; 4] = length [4; 3] /\
  cosineSimilarity [3; 4] [4; 3] =
  Ok (if (norm [3; 4] =? 0) || (norm [4; 3] =? 0) then 0
      else dot [3; 4] [4; 3] / (norm [3; 4] * norm [4; 3])).
Proof.
  split; [reflexivity | ].
  apply (proj2 (cosineSimilarity_spec [3; 4] [4; 3])). reflexivity.
Defined.

(** C10.  On the two empty vectors, which have equal length, neither
    function throws: [cosineSimilarity] returns [0] through the zero-norm
    fallback and [euclideanDistance] returns [0]. *)
Theorem empty_vectors :
  length (@nil float) = length (@nil float) /\
  (norm [] =? 0) = true /\
  cosineSimilarity [] [] = Ok 0 /\
  euclideanDistance [] [] = Ok 0.
Proof. repeat split; vm_compute; reflexivity. Qed.

(** C7, as amended.  [euclideanDistance a b] throws the length-mismatch error
    exactly when the two lengths differ, and for equal lengths returns the
    square root of the sum of the squared differences (computed in
    binary64).  The outcome is the same in both argument orders.  A returned
    distance is never below zero, and is at least zero whenever every
    component of both vectors is finite.  The distance from a vector of
    finite numbers to itself is [0]. *)
Theorem euclideanDistance_spec (a b : Vector) :
  (euclideanDistance a b = Throw same_length_error <-> length a <> length b) /\
  (length a = length b ->
   euclideanDistance a b = Ok (sqrt (squared_distance a b))) /\
  euclideanDistance b a = euclideanDistance a b /\
  (forall d, euclideanDistance a b = Ok d ->
     (d <? 0) = false /\
     (Forall (fun x => finite x = true) a ->
      Forall (fun x => finite x = true) b -> (0 <=? d) = true)) /\
  (Forall (fun x => finite x = true) a -> euclideanDistance a a = Ok 0).
Proof.
  assert (Heq : forall u v : Vector, length u = length v ->
                  euclideanDistance u v = Ok (sqrt (squared_distance u v))).
  { intros u v H. unfold euclideanDistance.
    rewrite H, Nat.eqb_refl. cbn [negb]. rewrite <- H.
    rewrite Loops.euclid_loop_spec by assumption. reflexivity. }
  assert (Hne : forall u v : Vector, length u <> length v ->
                  euclideanDistance u v = Throw same_length_error).
  { intros u v H. unfold euclideanDistance.
    apply Nat.eqb_neq in H. rewrite H. reflexivity. }
  destruct (Nat.eq_dec (length a) (length b)) as [E | E].
  - rewrite (Heq a b E), (Heq b a (eq_sym E)).
    rewrite (Metrics.squared_distance_sym b a).
    split; [split; [discriminate | contradiction] | ].
    split; [reflexivity | split; [reflexivity | split]].
    + intros d Hd. apply Ok_inj in Hd. subst d. split.
      * apply Binary64.sqrt_not_negative.
      * intros Ha Hb. apply Binary64.sqrt_nonneg.
        apply Metrics.fold_squares_nonneg; auto.
    + intros Ha. rewrite (Heq a a eq_refl).
      rewrite (Metrics.squared_distance_self a Ha). reflexivity.
  - rewrite (Hne a b E), (Hne b a (not_eq_sym E)).
    split; [split; [intros _; exact E | reflexivity] | ].
    split; [contradiction | split; [reflexivity | split]].
    + intros d Hd. discriminate Hd.
    + intros Ha. rewrite (Heq a a eq_refl).
      rewrite (Metrics.squared_distance_self a Ha). reflexivity.
Qed.

Lemma euclideanDistance_spec_witness :
  euclideanDistance [0; 0] [3; 4] = Ok 5 /\
  euclideanDistance [3; 4] [0; 0] = euclideanDistance [0; 0] [3; 4] /\
  (0 <=? 5) = true /\
  euclideanDistance [3; 4] [3; 4] = Ok 0.
Proof.
  pose proof (euclideanDistance_spec [0; 0] [3; 4]) as [_ [H1 [H2 [H3 _]]]].
  pose proof (euclideanDistance_spec [3; 4] [3; 4]) as [_ [_ [_ [_ H0]]]].
  specialize (H1 eq_refl).
  split; [exact H1 | split; [exact H2 | split]].
  - apply (H3 5 H1); repeat constructor.
  - apply H0. repeat constructor.
Defined.

(** C7 as stated fails.  In binary64 the tiny difference [1e-200] squares
    to zero, so two distinct vectors are at distance [0]; and the distance
    from [[Infinity]] to itself is [NaN], which is neither [0] nor at least
    zero. *)
Lemma euclideanDistance_counterexample :
  euclideanDistance [1e-200] [0] = Ok 0 /\
  [1e-200] <> [0] /\
  euclideanDistance [infinity] [infinity] = Ok nan /\
  (0 <=? nan) = false /\ (nan =? 0) = false.
Proof.
  repeat split; try (vm_compute; reflexivity).
  intros H. apply (f_equal (fun v => get v 0 =? 0)) in H.
  vm_compute in H. discriminate H.
Qed.

(** * [normalizeVector] *)

Lemma read_alloc_old (h : store) (v : Vector) (r : ref) :
  (r < length h)%nat -> read (fst (alloc h v)) r = read h r.
Proof.
  intros H. unfold read, alloc. cbn [fst]. apply app_nth1. exact H.
Qed.

Lemma read_alloc_new (h : store) (v : Vector) :
  read (fst (alloc h v)) (snd (alloc h v)) = v.
Proof.
  unfold read, alloc. cbn [fst snd]. rewrite app_nth2 by lia.
  rewrite Nat.sub_diag. reflexivity.
Qed.

Lemma read_dangling (h : store) (r : ref) :
  (length h <= r)%nat -> read h r = [].
Proof. intros H. unfold read. apply nth_overflow. exact H. Qed.

(** C6, as amended.  [normalizeVector] never changes an array of the store,
    its argument included.  When the computed norm of the argument is
    exactly zero it returns the argument itself and allocates nothing;
    otherwise it returns a newly allocated array of the same length whose
    entries are the argument's entries divided by that norm. *)
Theorem normalizeVector_spec (h : store) (vector : ref) :
  (forall r, (r < length h)%nat \/ r = vector ->
     read (fst (normalizeVector h vector)) r = read h r) /\
  ((norm (read h vector) =? 0) = true ->
     normalizeVector h vector = (h, vector)) /\
  ((norm (read h vector) =? 0) = false ->
     snd (normalizeVector h vector) = length h /\
     read (fst (normalizeVector h vector)) (snd (normalizeVector h vector))
     = map (fun val => val / norm (read h vector)) (read h vector) /\
     length (read (fst (normalizeVector h vector))
               (snd (normalizeVector h vector)))
     = length (read h vector)).
Proof.
  unfold normalizeVector. fold (norm (read h vector)).
  destruct (norm (read h vector) =? 0) eqn:E.
  - split; [intros r _; reflexivity | split; [reflexivity | discriminate]].
  - assert (Hin : (vector < length h)%nat).
    { destruct (Nat.lt_ge_cases vector (length h)) as [H | H]; [exact H | ].
      rewrite (read_dangling h vector H) in E. vm_compute in E.
      discriminate E. }
    split; [ | split; [discriminate | intros _; repeat split]].
    + intros r [Hr | Hr]; apply read_alloc_old; [exact Hr | subst r; exact Hin].
    + rewrite read_alloc_new. reflexivity.
    + rewrite read_alloc_new. apply length_map.
Qed.

Lemma normalizeVector_spec_witness :
  (norm (read [[0; 0]] 0%nat) =? 0) = true /\
  normalizeVector [[0; 0]] 0%nat = ([[0; 0]], 0%nat) /\
  (norm (read [[3; 4]] 0%nat) =? 0) = false /\
  snd (normalizeVector [[3; 4]] 0%nat) = 1%nat /\
  read (fst (normalizeVector [[3; 4]] 0%nat)) 0%nat = [3; 4].
Proof.
  pose proof (normalizeVector_spec [[0; 0]] 0%nat) as [_ [H0 _]].
  pose proof (normalizeVector_spec [[3; 4]] 0%nat) as [Hold [_ H1]].
  assert (E0 : (norm (read [[0; 0]] 0%nat) =? 0) = true) by reflexivity.
  assert (E1 : (norm (read [[3; 4]] 0%nat) =? 0) = false) by reflexivity.
  split; [exact E0 | split; [exact (H0 E0) | split; [exact E1 | ]]].
  split; [exact (proj1 (H1 E1)) | ].
  apply Hold. right. reflexivity.
Defined.

(** C6 as stated fails.  The square of [1e200] overflows, so the computed
    norm of [[1e200]] is [Infinity], which is not zero, and the returned
    vector is [[0]], of norm [0] instead of [1]. *)
Lemma normalizeVector_counterexample :
  (norm [1e200] =? 0) = false /\
  normalized [1e200] = [0] /\
  norm (normalized [1e200]) = 0 /\
  (norm (normalized [1e200]) =? 1) = false.
Proof. repeat split; vm_compute; reflexivity. Qed.

(** * [findSimilar] *)

Module Ranking.

Section SortFacts.
Context {A : Type}.
Variable comparefn : A -> A -> float.

Lemma insert_length (x : A) (l : list A) :
  length (insert comparefn x l) = S (length l).
Proof.
  induction l as [ | y l IH ]; cbn [insert]; [reflexivity | ].
  destruct (0 <? comparefn x y); cbn [length]; [rewrite IH | ];
    reflexivity.
Qed.

Lemma sort_length (l : list A) : length (sort comparefn l) = length l.
Proof.
  induction l as [ | x l IH ]; cbn [sort]; [reflexivity | ].
  rewrite insert_length, IH. reflexivity.
Qed.

Lemma insert_permutation (x : A) (l : list A) :
  Permutation (x :: l) (insert comparefn x l).
Proof.
  induction l as [ | y l IH ]; cbn [insert]; [reflexivity | ].
  destruct (0 <? comparefn x y); [ | reflexivity].
  rewrite perm_swap. apply perm_skip, IH.
Qed.

Lemma sort_permutation (l : list A) : Permutation l (sort comparefn l).
Proof.
  induction l as [ | x l IH ]; cbn [sort]; [reflexivity | ].
  rewrite <- insert_permutation. apply perm_skip, IH.
Qed.

Lemma Forall_insert (P : A -> Prop) (x : A) (l : list A) :
  P x -> Forall P l -> Forall P (insert comparefn x l).
Proof.
  intros Hx Hl. induction Hl as [ | y l Hy Hl IH ]; cbn [insert].
  - constructor; [exact Hx | constructor].
  - destruct (0 <? comparefn x y); repeat constructor; assumption.
Qed.

Lemma Forall_sort (P : A -> Prop) (l : list A) :
  Forall P l -> Forall P (sort comparefn l).
Proof.
  induction 1 as [ | x l Hx Hl IH ]; cbn [sort]; [constructor | ].
  apply Forall_insert; assumption.
Qed.
End SortFacts.

Lemma slice0_length {A : Type} (l : list A) (k : Z) :
  Z.of_nat (length (slice0 l k)) =
  if (k <? 0)%Z then Z.max (Z.of_nat (length l) + k) 0
  else Z.min k (Z.of_nat (length l)).
Proof.
  unfold slice0. rewrite length_firstn.
  destruct (Z.ltb_spec k 0); lia.
Qed.

Lemma Forall_prefix {A : Type} (P : A -> Prop) (n : nat) :
  forall l, Forall P l -> Forall P (firstn n l).
Proof.
  induction n as [ | n IH ]; intros l H; [constructor | ].
  destruct H as [ | x l Hx Hl ]; cbn [firstn]; constructor; auto.
Qed.

Lemma Forall_slice0 {A : Type} (P : A -> Prop) (l : list A) (k : Z) :
  Forall P l -> Forall P (slice0 l k).
Proof. intros H. unfold slice0. apply Forall_prefix, H. Qed.

Lemma StronglySorted_firstn {A : Type} (R : A -> A -> Prop) (n : nat) :
  forall l, StronglySorted R l -> StronglySorted R (firstn n l).
Proof.
  induction n as [ | n IH ]; intros l H; [constructor | ].
  destruct H as [ | x l Hl Hx ]; cbn [firstn]; constructor.
  - apply IH, Hl.
  - apply Forall_prefix, Hx.
Qed.

Lemma StronglySorted_nth {A : Type} (R : A -> A -> Prop) (l : list A) :
  StronglySorted R l ->
  forall i j x y, (i < j)%nat ->
    nth_error l i = Some x -> nth_error l j = Some y -> R x y.
Proof.
  induction 1 as [ | z l Hl IH Hz ]; intros i j x y Hij Hi Hj.
  - destruct i; discriminate Hi.
  - destruct j as [ | j ]; [lia | ]. cbn [nth_error] in Hj.
    destruct i as [ | i ]; cbn [nth_error] in Hi.
    + injection Hi as <-. rewrite Forall_forall in Hz.
      apply Hz. eapply nth_error_In, Hj.
    + apply (IH i j); [lia | assumption | assumption].
Qed.

(** *** What [vectors.map] collects *)

Lemma map_similarities_ok (q : Vector) (vs : list Vector) :
  Forall (fun v => length v = length q) vs ->
  forall i, exists l,
    map_similarities q vs i = Ok l /\ length l = length vs.
Proof.
  induction 1 as [ | v vs Hv Hvs IH ]; intros i; cbn [map_similarities].
  - exists []. split; reflexivity.
  - destruct (Metrics.cosineSimilarity_returns q v (eq_sym Hv)) as [s Hs].
    rewrite Hs. cbn [bind].
    destruct (IH (S i)) as [l [Hl Hlen]]. rewrite Hl. cbn [bind].
    eexists. split; [reflexivity | cbn [length]; rewrite Hlen; reflexivity].
Qed.

Lemma map_similarities_throws (q : Vector) (vs : list Vector) :
  Exists (fun v => length v <> length q) vs ->
  forall i, map_similarities q vs i = Throw same_length_error.
Proof.
  induction 1 as [ v vs Hv | v vs Hvs IH ]; intros i; cbn [map_similarities].
  - rewrite Metrics.cosineSimilarity_throws by auto. reflexivity.
  - destruct (cosineSimilarity q v) as [s | m] eqn:E; cbn [bind].
    + rewrite IH. reflexivity.
    + destruct (Nat.eq_dec (length q) (length v)) as [H | H].
      * destruct (Metrics.cosineSimilarity_returns q v H) as [s Hs].
        rewrite Hs in E. discriminate E.
      * rewrite Metrics.cosineSimilarity_throws in E by assumption.
        injection E as <-. reflexivity.
Qed.

Lemma map_similarities_indices (q : Vector) (vs : list Vector) :
  forall i l, map_similarities q vs i = Ok l ->
    StronglySorted index_lt l /\ Forall (fun r => (i <= index r)%nat) l.
Proof.
  induction vs as [ | v vs IH ]; intros i l H; cbn [map_similarities] in H.
  - injection H as <-. split; constructor.
  - destruct (cosineSimilarity q v) as [s | m]; cbn [bind] in H;
      [ | discriminate H].
    destruct (map_similarities q vs (S i)) as [tl | m] eqn:E;
      cbn [bind] in H; [ | discriminate H].
    injection H as <-. destruct (IH (S i) tl E) as [Hs Hi]. split.
    + constructor; [exact Hs | ].
      eapply Forall_impl; [ | exact Hi]. unfold index_lt. cbn. intros r Hr. lia.
    + constructor; [cbn; lia | ].
      eapply Forall_impl; [ | exact Hi]. cbn. intros r Hr. lia.
Qed.

Lemma map_similarities_no_nan (q : Vector) (vs : list Vector) :
  (forall v s, In v vs -> cosineSimilarity q v = Ok s -> is_nan s = false) ->
  forall i l, map_similarities q vs i = Ok l -> Forall no_nan l.
Proof.
  induction vs as [ | v vs IH ]; intros Hn i l H; cbn [map_similarities] in H.
  - injection H as <-. constructor.
  - destruct (cosineSimilarity q v) as [s | m] eqn:Es; cbn [bind] in H;
      [ | discriminate H].
    destruct (map_similarities q vs (S i)) as [tl | m] eqn:E;
      cbn [bind] in H; [ | discriminate H].
    injection H as <-. constructor.
    + unfold no_nan. cbn. apply (Hn v s); [left; reflexivity | exact Es].
    + apply (IH (fun v' s' Hin => Hn v' s' (or_intror Hin)) (S i)). exact E.
Qed.

(** *** The order the sort produces *)

Lemma comparefn_positive (x y : SimilarityResult) :
  no_nan x -> no_nan y ->
  (0 <? by_similarity_desc x y) =
  (key (similarity x) <? key (similarity y))%Z.
Proof.
  intros Hx Hy. unfold by_similarity_desc.
  apply Binary64.sub_positive; assumption.
Qed.

Lemma ranks_before_trans (x y z : SimilarityResult) :
  ranks_before x y -> ranks_before y z -> ranks_before x z.
Proof. unfold ranks_before. lia. Qed.

Lemma insert_ranked (x : SimilarityResult) (l : list SimilarityResult) :
  no_nan x -> Forall no_nan l -> Forall (index_lt x) l ->
  StronglySorted ranks_before l ->
  StronglySorted ranks_before (insert by_similarity_desc x l).
Proof.
  intros Hx Hn Hi Hs. induction Hs as [ | y l Hl IH Hy ]; cbn [insert].
  - repeat constructor.
  - inversion Hn as [ | ? ? Hny Hnl ]; subst.
    inversion Hi as [ | ? ? Hiy Hil ]; subst.
    rewrite comparefn_positive by assumption.
    destruct (Z.ltb_spec (key (similarity x)) (key (similarity y)))
      as [Hlt | Hge].
    + constructor; [apply IH; assumption | ].
      apply Forall_insert; [ | exact Hy]. left. exact Hlt.
    + assert (Hxy : ranks_before x y).
      { unfold ranks_before, index_lt in *. lia. }
      constructor; [constructor; assumption | ].
      constructor; [exact Hxy | ].
      eapply Forall_impl; [ | exact Hy].
      intros z Hz. exact (ranks_before_trans x y z Hxy Hz).
Qed.

Lemma sort_ranked (l : list SimilarityResult) :
  Forall no_nan l -> StronglySorted index_lt l ->
  StronglySorted ranks_before (sort by_similarity_desc l).
Proof.
  intros Hn Hs. induction Hs as [ | x l Hl IH Hx ]; cbn [sort];
    [constructor | ].
  inversion Hn as [ | ? ? Hnx Hnl ]; subst.
  apply insert_ranked; auto using Forall_sort.
Qed.

Lemma ranks_before_asym (x y : SimilarityResult) :
  ranks_before x y -> ranks_before y x -> False.
Proof. unfold ranks_before. lia. Qed.

(** There is one way only to rank given results: whatever stable sorting
    algorithm the engine runs, when no similarity is [NaN] it returns what
    the insertion sort returns. *)
Lemma ranking_unique (l1 : list SimilarityResult) :
  forall l2, Permutation l1 l2 ->
    StronglySorted ranks_before l1 -> StronglySorted ranks_before l2 ->
    l1 = l2.
Proof.
  induction l1 as [ | a l1 IH ]; intros l2 Hp H1 H2.
  - apply Permutation_nil in Hp. subst l2. reflexivity.
  - destruct l2 as [ | b l2 ];
      [apply Permutation_sym, Permutation_nil in Hp; discriminate Hp | ].
    inversion H1 as [ | ? ? Hs1 Ha ]; subst.
    inversion H2 as [ | ? ? Hs2 Hb ]; subst.
    rewrite Forall_forall in Ha, Hb.
    assert (Hab : a = b).
    { assert (Hin_a : In a (b :: l2))
        by (eapply Permutation_in; [exact Hp | left; reflexivity]).
      assert (Hin_b : In b (a :: l1))
        by (eapply Permutation_in;
            [apply Permutation_sym; exact Hp | left; reflexivity]).
      destruct Hin_a as [E | Hin_a]; [symmetry; exact E | ].
      destruct Hin_b as [E | Hin_b]; [exact E | ].
      destruct (ranks_before_asym a b (Ha b Hin_b) (Hb a Hin_a)). }
    subst b. f_equal. apply IH; try assumption.
    eapply Permutation_cons_inv, Hp.
Qed.

Lemma sort_is_the_ranking (l r : list SimilarityResult) :
  Forall no_nan l -> StronglySorted index_lt l ->
  Permutation l r -> StronglySorted ranks_before r ->
  r = sort by_similarity_desc l.
Proof.
  intros Hn Hi Hp Hr. apply ranking_unique; [ | exact Hr | ].
  - rewrite <- Hp. apply sort_permutation.
  - apply sort_ranked; assumption.
Qed.

Lemma ranks_before_leb (x y : SimilarityResult) :
  no_nan x -> no_nan y -> ranks_before x y ->
  (similarity y <=? similarity x) = true.
Proof.
  intros Hx Hy H. rewrite Binary64.leb_key by assumption.
  apply Z.leb_le. unfold ranks_before in H. lia.
Qed.

Lemma ranks_before_tie (x y : SimilarityResult) :
  no_nan x -> no_nan y -> ranks_before x y ->
  (similarity x =? similarity y) = true -> (index x < index y)%nat.
Proof.
  intros Hx Hy H E. rewrite Binary64.eqb_key in E by assumption.
  apply Z.eqb_eq in E. unfold ranks_before in H. lia.
Qed.

End Ranking.

Lemma findSimilar_returns (q : Vector) (vs : list Vector) (topK : Z) :
  Forall (fun v => length v = length q) vs ->
  exists r, findSimilar q vs topK = Ok r /\
            Z.of_nat (length r) =
            if (topK <? 0)%Z then Z.max (Z.of_nat (length vs) + topK) 0
            else Z.min topK (Z.of_nat (length vs)).
Proof.
  intros H. unfold findSimilar.
  destruct (Ranking.map_similarities_ok q vs H 0) as [l [Hl Hlen]].
  rewrite Hl. cbn [bind]. eexists. split; [reflexivity | ].
  rewrite Ranking.slice0_length, Ranking.sort_length, Hlen. reflexivity.
Qed.

(** C1, as amended.  When every candidate has the length of the query and
    [topK] is not negative, [findSimilar] returns exactly
    [min(topK, len(candidates))] results: none for [topK = 0], and all of
    them when [topK] is at least the number of candidates.  When some
    candidate has another length, the call throws the length-mismatch
    error. *)
Theorem findSimilar_length (q : Vector) (vs : list Vector) (topK : Z) :
  (Forall (fun v => length v = length q) vs -> (0 <= topK)%Z ->
   exists r, findSimilar q vs topK = Ok r /\
             Z.of_nat (length r) = Z.min topK (Z.of_nat (length vs)) /\
             (topK = 0%Z -> r = []) /\
             ((Z.of_nat (length vs) <= topK)%Z -> length r = length vs)) /\
  (Exists (fun v => length v <> length q) vs ->
   findSimilar q vs topK = Throw same_length_error).
Proof.
  split.
  - intros H Hk. destruct (findSimilar_returns q vs topK H) as [r [Hr Hlen]].
    destruct (Z.ltb_spec topK 0) as [Hneg | _]; [lia | ].
    exists r. repeat split; try assumption.
    + intros ->. destruct r; [reflexivity | cbn [length] in Hlen; lia].
    + intros Hle. lia.
  - intros H. unfold findSimilar.
    rewrite Ranking.map_similarities_throws by assumption. reflexivity.
Qed.

Lemma findSimilar_length_witness :
  (exists r, findSimilar [1; 0] [[1; 0]; [0; 1]; [0.9; 0.1]] 2 = Ok r /\
             Z.of_nat (length r) = 2%Z) /\
  findSimilar [1; 0] [[1; 0]; [0; 1; 0]] 2 = Throw same_length_error.
Proof.
  pose proof (findSimilar_length [1; 0] [[1; 0]; [0; 1]; [0.9; 0.1]] 2)
    as [H _].
  pose proof (findSimilar_length [1; 0] [[1; 0]; [0; 1; 0]] 2) as [_ H'].
  split.
  - destruct H as [r [Hr [Hlen _]]];
      [repeat constructor | lia | exists r; split; [exact Hr | exact Hlen]].
  - apply H'. right. left. cbn. lia.
Defined.

(** With a negative [topK], [slice(0, topK)] drops the last [-topK] results
    instead of returning none. *)
Lemma findSimilar_negative_topK (q : Vector) (vs : list Vector) (topK : Z) :
  Forall (fun v => length v = length q) vs -> (topK < 0)%Z ->
  exists r, findSimilar q vs topK = Ok r /\
            Z.of_nat (length r) = Z.max (Z.of_nat (length vs) + topK) 0.
Proof.
  intros H Hk. destruct (findSimilar_returns q vs topK H) as [r [Hr Hlen]].
  destruct (Z.ltb_spec topK 0) as [_ | Hpos]; [ | lia].
  exists r. split; assumption.
Qed.

(** C1 as stated fails.  With [topK = -1] and two candidates the call
    returns one result, not the empty sequence; and a candidate of another
    length makes the call throw, whatever [topK] is. *)
Lemma findSimilar_length_counterexample :
  (-1 <= 0)%Z /\
  findSimilar [1; 0] [[1; 0]; [0; 1]] (-1) =
  Ok [{| index := 0; similarity := 1 |}] /\
  findSimilar [1; 0] [[1]] 1 = Throw same_length_error.
Proof. split; [lia | split; vm_compute; reflexivity]. Qed.

(** C5, as amended.  When [findSimilar] succeeds and no similarity it
    computed is [NaN], the results are in non-increasing order of
    similarity, and results of equal similarity are in the order of their
    candidates. *)
Theorem findSimilar_sorted (q : Vector) (vs : list Vector) (topK : Z)
    (r : list SimilarityResult) :
  findSimilar q vs topK = Ok r ->
  (forall v s, In v vs -> cosineSimilarity q v = Ok s -> is_nan s = false) ->
  sorted_desc r /\ ties_in_index_order r.
Proof.
  unfold findSimilar. intros H Hn.
  destruct (map_similarities q vs 0) as [l | m] eqn:El; cbn [bind] in H;
    [ | discriminate H].
  apply Ok_inj in H. subst r.
  pose proof (Ranking.map_similarities_no_nan q vs Hn 0 l El) as Hnan.
  destruct (Ranking.map_similarities_indices q vs 0 l El) as [Hidx _].
  pose proof (Ranking.sort_ranked l Hnan Hidx) as Hs.
  pose proof (Ranking.Forall_sort by_similarity_desc no_nan l Hnan) as Hsn.
  set (sorted := sort by_similarity_desc l) in *.
  assert (Hr : StronglySorted ranks_before (slice0 sorted topK))
    by (apply Ranking.StronglySorted_firstn, Hs).
  assert (Hrn : Forall no_nan (slice0 sorted topK))
    by (apply Ranking.Forall_slice0, Hsn).
  rewrite Forall_forall in Hrn.
  split; intros i j x y Hij Hi Hj;
    pose proof (Ranking.StronglySorted_nth _ _ Hr i j x y Hij Hi Hj) as Hxy;
    pose proof (Hrn x (nth_error_In _ _ Hi)) as Hx;
    pose proof (Hrn y (nth_error_In _ _ Hj)) as Hy.
  - apply Ranking.ranks_before_leb; assumption.
  - apply Ranking.ranks_before_tie; assumption.
Qed.

Lemma findSimilar_sorted_witness :
  exists r,
    findSimilar [1; 0] [[1; 0]; [0; 1]; [0.9; 0.1]] 2 = Ok r /\
    map index r = [0; 2]%nat /\
    sorted_desc r /\ ties_in_index_order r.
Proof.
  destruct (findSimilar [1; 0] [[1; 0]; [0; 1]; [0.9; 0.1]] 2) as [r | m]
    eqn:H; [ | vm_compute in H; discriminate H].
  exists r. split; [reflexivity | ].
  split; [vm_compute in H; apply Ok_inj in H; subst r; reflexivity | ].
  apply (findSimilar_sorted [1; 0] [[1; 0]; [0; 1]; [0.9; 0.1]] 2 r H).
  intros v s [<- | [<- | [<- | []]]] E; vm_compute in E;
    apply Ok_inj in E; subst s; reflexivity.
Defined.

(** C5 as stated fails.  The third candidate overflows to a [NaN]
    similarity, which makes the comparator return [NaN] ("equal") against
    every other result.  The second result (similarity about [0.707]) then
    stays before the fourth (similarity about [1]): every comparison that
    could move the fourth forward meets the [NaN] first. *)
Lemma findSimilar_sorted_counterexample :
  exists r,
    findSimilar [10; 10] [[1; 1]; [1; 0]; [1e308; 1e308]; [1; 1]] 4 = Ok r /\
    map index r = [0; 1; 2; 3]%nat /\
    map (fun x => is_nan (similarity x)) r = [false; false; true; false] /\
    (exists x y, nth_error r 1 = Some x /\ nth_error r 3 = Some y /\
                 (similarity x <? similarity y) = true) /\
    ~ sorted_desc r.
Proof.
  eexists. split; [vm_compute; reflexivity | ].
  split; [reflexivity | split; [reflexivity | split]].
  - do 2 eexists. split; [reflexivity | split; reflexivity].
  - intros H.
    pose proof (H 1%nat 3%nat _ _ ltac:(lia) eq_refl eq_refl) as E.
    vm_compute in E. discriminate E.
Qed.

(** * The similarity label *)

Module Order.

Lemma ltb_nan_r (x y : float) : is_nan y = true -> (x <? y) = false.
Proof.
  rewrite Binary64.is_nan_spec, ltb_spec. intros H.
  destruct (Prim2SF y); try discriminate H.
  unfold SFltb. destruct (Prim2SF x); reflexivity.
Qed.

Lemma ltb_not_nan (x y : float) :
  (x <? y) = true -> is_nan x = false /\ is_nan y = false.
Proof.
  rewrite !Binary64.is_nan_spec, ltb_spec. unfold SFltb.
  destruct (Prim2SF x), (Prim2SF y); cbn; intros H;
    try discriminate H; split; reflexivity.
Qed.

(** A number that is not above the lower threshold is not above the higher
    one either. *)
Lemma ltb_false_mono (a b s : float) :
  (a <? b) = true -> (a <? s) = false -> (b <? s) = false.
Proof.
  intros Hab Has. destruct (ltb_not_nan a b Hab) as [Ha Hb].
  destruct (is_nan s) eqn:Hs; [apply ltb_nan_r, Hs | ].
  rewrite Binary64.ltb_key in * by assumption.
  apply Z.ltb_lt in Hab. apply Z.ltb_ge in Has. apply Z.ltb_ge. lia.
Qed.

Lemma leb_not_nan (x y : float) :
  (x <=? y) = true -> is_nan x = false /\ is_nan y = false.
Proof.
  rewrite !Binary64.is_nan_spec, leb_spec. unfold SFleb.
  destruct (Prim2SF x), (Prim2SF y); cbn; intros H;
    try discriminate H; split; reflexivity.
Qed.

(** [x <= y] excludes [y < x]. *)
Lemma leb_ltb_false (x y : float) : (x <=? y) = true -> (y <? x) = false.
Proof.
  intros H. destruct (leb_not_nan x y H) as [Hx Hy].
  rewrite Binary64.leb_key in H by assumption.
  rewrite Binary64.ltb_key by assumption.
  apply Z.leb_le in H. apply Z.ltb_ge. exact H.
Qed.

End Order.

Import Labels.

(** C8.  The label is chosen by strict comparisons, the first that holds:
    above [0.8] "Very similar", above [0.6] "Similar", above [0.4]
    "Somewhat similar", and "Not similar" otherwise.  A similarity of exactly
    [0.8], [0.6] or [0.4] gets the label of the bucket below.  The function
    of [src/index.ts] and the expression of [src/helpers/index.ts] agree. *)
Theorem getSimilarity_thresholds (s : float) :
  ((0.8 <? s) = true -> getSimilarity s = very_similar) /\
  ((0.8 <? s) = false -> (0.6 <? s) = true -> getSimilarity s = similar) /\
  ((0.6 <? s) = false -> (0.4 <? s) = true ->
   getSimilarity s = somewhat_similar) /\
  ((0.4 <? s) = false -> getSimilarity s = not_similar) /\
  getSimilarity 0.8 = similar /\
  getSimilarity 0.6 = somewhat_similar /\
  getSimilarity 0.4 = not_similar /\
  interpretation s = getSimilarity s.
Proof.
  assert (H86 : (0.6 <? 0.8) = true) by reflexivity.
  assert (H64 : (0.4 <? 0.6) = true) by reflexivity.
  unfold getSimilarity, interpretation. repeat split.
  - intros ->. reflexivity.
  - intros -> ->. reflexivity.
  - intros H6 H4. rewrite (Order.ltb_false_mono 0.6 0.8 s H86 H6), H6, H4.
    reflexivity.
  - intros H4.
    pose proof (Order.ltb_false_mono 0.4 0.6 s H64 H4) as H6.
    rewrite (Order.ltb_false_mono 0.6 0.8 s H86 H6), H6, H4. reflexivity.
Qed.

Lemma getSimilarity_thresholds_witness :
  getSimilarity 0.85 = very_similar /\
  getSimilarity 0.7 = similar /\
  getSimilarity 0.5 = somewhat_similar /\
  getSimilarity 0.1 = not_similar /\
  getSimilarity nan = not_similar.
Proof.
  split; [apply (getSimilarity_thresholds 0.85); reflexivity | ].
  split; [apply (getSimilarity_thresholds 0.7); reflexivity | ].
  split; [apply (getSimilarity_thresholds 0.5); reflexivity | ].
  split; [apply (getSimilarity_thresholds 0.1); reflexivity | ].
  apply (getSimilarity_thresholds nan); reflexivity.
Defined.

(** The same as intervals: above [0.8]; above [0.6] up to [0.8]; above [0.4]
    up to [0.6]; up to [0.4]. *)
Lemma getSimilarity_buckets (s : float) :
  ((0.6 <? s) = true -> (s <=? 0.8) = true -> getSimilarity s = similar) /\
  ((0.4 <? s) = true -> (s <=? 0.6) = true ->
   getSimilarity s = somewhat_similar) /\
  ((s <=? 0.4) = true -> getSimilarity s = not_similar).
Proof.
  assert (H86 : (0.6 <? 0.8) = true) by reflexivity.
  assert (H64 : (0.4 <? 0.6) = true) by reflexivity.
  unfold getSimilarity. repeat split.
  - intros H6 H8. rewrite (Order.leb_ltb_false s 0.8 H8), H6. reflexivity.
  - intros H4 H6. apply Order.leb_ltb_false in H6.
    rewrite (Order.ltb_false_mono 0.6 0.8 s H86 H6), H6, H4. reflexivity.
  - intros H4. apply Order.leb_ltb_false in H4.
    pose proof (Order.ltb_false_mono 0.4 0.6 s H64 H4) as H6.
    rewrite (Order.ltb_false_mono 0.6 0.8 s H86 H6), H6, H4. reflexivity.
Qed.

(** * The embedder singleton *)

Module Lifecycle.

Import Embedder.

Lemma nth_error_replace_nth {A : Type} (x : A) :
  forall (l : list A) (n : nat),
    (n < length l)%nat -> nth_error (replace_nth n x l) n = Some x.
Proof.
  induction l as [ | y l IH ]; intros n H; cbn [length] in H; [lia | ].
  destruct n as [ | n ]; cbn [replace_nth nth_error]; [reflexivity | ].
  apply IH. lia.
Qed.

Lemma length_replace_nth {A : Type} (x : A) :
  forall (l : list A) (n : nat), length (replace_nth n x l) = length l.
Proof.
  induction l as [ | y l IH ]; intros [ | n ]; cbn [replace_nth length];
    try reflexivity.
  rewrite IH. reflexivity.
Qed.

Lemma forallb_replace_nth {A : Type} (f : A -> bool) (x : A) :
  forall (l : list A) (n : nat),
    f x = true -> forallb f l = true -> forallb f (replace_nth n x l) = true.
Proof.
  induction l as [ | y l IH ]; intros n Hx H; [reflexivity | ].
  cbn [forallb] in H. apply andb_prop in H. destruct H as [Hy Hl].
  destruct n as [ | n ]; cbn [replace_nth forallb].
  - rewrite Hx, Hl. reflexivity.
  - rewrite Hy, IH by assumption. reflexivity.
Qed.

Lemma forallb_nth_error {A : Type} (f : A -> bool) :
  forall (l : list A) (n : nat) (x : A),
    forallb f l = true -> nth_error l n = Some x -> f x = true.
Proof.
  intros l n x H Hn. rewrite forallb_forall in H.
  apply H. eapply nth_error_In, Hn.
Qed.

Lemma quiescent_spawn (t : task) (s : state) :
  awaiting_pipeline t = false -> quiescent s = true ->
  quiescent (spawn t s) = true.
Proof.
  unfold quiescent, spawn. cbn [tasks]. intros Ht Hs.
  rewrite forallb_app, Hs. cbn [forallb]. rewrite Ht. reflexivity.
Qed.

Lemma quiescent_set_task (n : nat) (t : task) (s : state) :
  awaiting_pipeline t = false -> quiescent s = true ->
  quiescent (set_task n t s) = true.
Proof.
  unfold quiescent, set_task. cbn [tasks]. intros Ht Hs.
  apply forallb_replace_nth; [rewrite Ht; reflexivity | exact Hs].
Qed.

(** A call that finds a backend returns it at once, whatever model it
    names, and starts no [pipeline]. *)
Lemma initializeEmbedder_initialized (m : string) (s : state) (h : Backend) :
  embedder s = Some h -> initializeEmbedder m s = (Returned h, s).
Proof. intros H. unfold initializeEmbedder. rewrite H. reflexivity. Qed.

Lemma pipeline_settles_awaiting (t : nat) (f : string -> result Backend)
    (s s' : state) :
  pipeline_settles t f s = Some s' ->
  exists tk, nth_error (tasks s) t = Some tk /\ awaiting_pipeline tk = true.
Proof.
  unfold pipeline_settles. intros H.
  destruct (nth_error (tasks s) t) as [tk | ]; [ | discriminate H].
  exists tk. split; [reflexivity | ].
  destruct tk as [[ | | ] | ? ? [ | | ] | | ]; try discriminate H; reflexivity.
Qed.

Lemma embed_continue_settled (i : input) (o : VectorizeOptions)
    (p : init_point) (s : state) (next : task) :
  embed_continue i o p s = Some next -> awaiting_pipeline next = false.
Proof.
  unfold embed_continue. intros H.
  destruct p as [m | h | err]; [discriminate H | | ].
  - destruct (embedder s); injection H as <-; reflexivity.
  - injection H as <-. reflexivity.
Qed.

(** While no [pipeline] call is in flight, an existing backend stays. *)
Lemma step_memoized (s s' : state) (e : event) (h : Backend) :
  embedder s = Some h -> quiescent s = true -> step s e = Some s' ->
  embedder s' = Some h /\ quiescent s' = true /\
  pipelines s' = pipelines s /\ created s' = created s.
Proof.
  intros Hh Hq H.
  destruct e as [m | text o | texts o | t | t err | t | t tensor];
    cbn [step] in H.
  1-3: unfold vectorize, vectorizeBatch, embed in H;
       rewrite (initializeEmbedder_initialized _ s h Hh) in H;
       injection H as <-; cbn;
       (split; [exact Hh | split; [ | split; reflexivity]]);
       apply quiescent_spawn; [reflexivity | exact Hq].
  1-2: destruct (pipeline_settles_awaiting _ _ _ _ H) as [tk [Et Hk]];
       pose proof (forallb_nth_error _ _ _ _ Hq Et) as Hk';
       cbn beta in Hk'; rewrite Hk in Hk'; discriminate Hk'.
  - destruct (nth_error (tasks s) t) as [tk | ] eqn:Et; [ | discriminate H].
    destruct tk as [ | i o p | | ]; try discriminate H.
    destruct (embed_continue i o p s) as [next | ] eqn:En; [ | discriminate H].
    injection H as <-. cbn.
    split; [exact Hh | split; [ | split; reflexivity]].
    apply quiescent_set_task; [ | exact Hq].
    eapply embed_continue_settled, En.
  - destruct (nth_error (tasks s) t) as [tk | ] eqn:Et; [ | discriminate H].
    destruct tk as [ | | call used | ]; try discriminate H.
    injection H as <-. cbn.
    split; [exact Hh | split; [ | split; reflexivity]].
    apply quiescent_set_task; [reflexivity | exact Hq].
Qed.

(** Calls made one after the other, each settled before the next is made,
    never overlap: whatever then happens, the backend stays the same and no
    further [pipeline] call is made. *)
Lemma run_memoized (es : list event) :
  forall (s s' : state) (h : Backend),
    embedder s = Some h -> quiescent s = true -> run s es = Some s' ->
    embedder s' = Some h /\ quiescent s' = true /\
    pipelines s' = pipelines s /\ created s' = created s.
Proof.
  induction es as [ | e es IH ]; intros s s' h Hh Hq H; cbn [run] in H.
  - injection H as <-. auto.
  - destruct (step s e) as [s1 | ] eqn:E; [ | discriminate H].
    destruct (step_memoized s s1 e h Hh Hq E) as [Hh1 [Hq1 [Hp1 Hc1]]].
    destruct (IH s1 s' h Hh1 Hq1 H) as [Hh' [Hq' [Hp' Hc']]].
    rewrite Hp', Hc', Hp1, Hc1. auto.
Qed.

Lemma getModelInfo_spec (s : state) :
  getModelInfo s = true <-> exists h, embedder s = Some h.
Proof.
  unfold getModelInfo. destruct (embedder s) as [h | ].
  - split; [intros _; exists h; reflexivity | reflexivity].
  - split; [discriminate | intros [h H]; discriminate H].
Qed.

(** A failed creation behind [vectorize] or [vectorizeBatch] reaches their
    caller: the call ends by throwing the error of [pipeline]. *)
Lemma embed_rejected (s : state) (t : nat) (i : input) (o : VectorizeOptions)
    (m err : string) :
  nth_error (tasks s) t = Some (EmbedInit i o (AwaitPipeline m)) ->
  exists s',
    run s [PipelineRejects t err; Continue t] = Some s' /\
    nth_error (tasks s') t = Some (EmbedDone (Throw err)) /\
    embedder s' = embedder s.
Proof.
  intros Ht.
  assert (Hlt : (t < length (tasks s))%nat)
    by (apply nth_error_Some; rewrite Ht; discriminate).
  cbn [run step]. unfold pipeline_settles. rewrite Ht.
  cbn [initializeEmbedder_resume set_task tasks].
  rewrite nth_error_replace_nth by exact Hlt. cbn [embed_continue].
  eexists. split; [reflexivity | ]. cbn [set_task tasks embedder].
  split; [ | reflexivity].
  apply nth_error_replace_nth. rewrite length_replace_nth. exact Hlt.
Qed.

End Lifecycle.

Import Embedder.
Open Scope string_scope.

(** C2, on the code.  Two [initializeEmbedder] calls that overlap each load
    a backend, and the second to finish replaces the first: the call made
    while [backend_A] is the embedder returns [backend_A] (ignoring its
    "model-C"), and the call made after the second [pipeline] has resolved
    returns [backend_B].  [getModelInfo] reports [true] in both states. *)
Theorem overlapping_initialize_replaces_backend :
  exists s3 s6,
    run initial (firstn 4 overlapping_initialize) = Some s3 /\
    run initial overlapping_initialize = Some s6 /\
    embedder s3 = Some backend_A /\
    nth_error (tasks s3) 2 = Some (Initialize (Returned backend_A)) /\
    embedder s6 = Some backend_B /\
    nth_error (tasks s6) 3 = Some (Initialize (Returned backend_B)) /\
    backend_A <> backend_B /\
    getModelInfo s3 = true /\ getModelInfo s6 = true.
Proof.
  do 2 eexists. repeat split; try (vm_compute; reflexivity).
  discriminate.
Qed.

(** C4, on the code.  Two [vectorize] calls with different models, made
    before any backend exists, both find [embedder] empty: [pipeline] is
    invoked twice, two backends are created, and the two calls run their
    inference on different backends. *)
Theorem concurrent_vectorize_creates_two_backends :
  exists s,
    run initial concurrent_vectorize = Some s /\
    pipelines s = ["model-A"; "model-B"] /\
    created s = [backend_A; backend_B] /\
    map awaiting_pipeline (tasks s) = [false; false] /\
    (exists call, nth_error (tasks s) 0 = Some (EmbedRun call backend_A)) /\
    (exists call, nth_error (tasks s) 1 = Some (EmbedRun call backend_B)) /\
    embedder s = Some backend_B.
Proof.
  eexists. repeat split; try (vm_compute; reflexivity);
    eexists; vm_compute; reflexivity.
Qed.

(** C9.  When the [pipeline] call of an [initializeEmbedder] task rejects
    while no backend exists, the task throws that error, the embedder stays
    empty, [getModelInfo] reports [false], and the next call of
    [initializeEmbedder] invokes [pipeline] again. *)
Theorem failed_creation_is_retried (s : state) (t : nat) (m err : string) :
  nth_error (tasks s) t = Some (Initialize (AwaitPipeline m)) ->
  embedder s = None ->
  exists s',
    step s (PipelineRejects t err) = Some s' /\
    nth_error (tasks s') t = Some (Initialize (Rejected err)) /\
    embedder s' = None /\
    getModelInfo s' = false /\
    pipelines s' = pipelines s /\ created s' = created s /\
    forall m', exists s'',
      step s' (CallInitializeEmbedder m') = Some s'' /\
      pipelines s'' = (pipelines s' ++ [model_or_default m'])%list /\
      nth_error (tasks s'') (length (tasks s')) =
      Some (Initialize (AwaitPipeline (model_or_default m'))).
Proof.
  intros Ht He. cbn [step]. unfold pipeline_settles. rewrite Ht.
  cbn [initializeEmbedder_resume]. eexists. split; [reflexivity | ].
  assert (Hlt : (t < length (tasks s))%nat)
    by (apply nth_error_Some; rewrite Ht; discriminate).
  cbn [set_task tasks embedder pipelines created].
  split; [apply Lifecycle.nth_error_replace_nth, Hlt | ].
  split; [exact He | ].
  split; [unfold getModelInfo; cbn [set_task embedder]; rewrite He; reflexivity | ].
  split; [reflexivity | split; [reflexivity | ]].
  intros m'. unfold initializeEmbedder. cbn [set_task embedder].
  rewrite He.
  eexists. split; [reflexivity | ].
  cbn [spawn set_task pipelines tasks]. split; [reflexivity | ].
  rewrite nth_error_app2 by lia. rewrite Nat.sub_diag. reflexivity.
Qed.

Lemma failed_creation_is_retried_witness :
  exists s s',
    run initial [CallInitializeEmbedder (Some "no-such-model")] = Some s /\
    step s (PipelineRejects 0 "Could not locate file") = Some s' /\
    getModelInfo s' = false /\
    exists s'',
      step s' (CallInitializeEmbedder None) = Some s'' /\
      pipelines s'' = ["no-such-model"; default_model].
Proof.
  eexists. 
  destruct (failed_creation_is_retried
              {| embedder := None;
                 tasks := [Initialize (AwaitPipeline "no-such-model")];
                 pipelines := ["no-such-model"]; created := [] |}
              0 "no-such-model" "Could not locate file" eq_refl eq_refl)
    as [s' [Hstep [_ [_ [Hinfo [Hp [_ Hretry]]]]]]].
  exists s'. split; [reflexivity | ].
  split; [exact Hstep | split; [exact Hinfo | ]].
  destruct (Hretry None) as [s'' [Hs'' [Hp'' _]]].
  exists s''. split; [exact Hs'' | ].
  rewrite Hp'', Hp. reflexivity.
Defined.

(** * Further properties of the numeric routines *)

Module Products.

Import Number.
Open Scope float_scope.

Lemma SFmul_comm (x y : spec_float) :
  SFmul prec emax x y = SFmul prec emax y x.
Proof.
  destruct x as [sx | sx | | sx mx ex], y as [sy | sy | | sy my ey];
    cbn [SFmul]; try reflexivity; try (rewrite xorb_comm; reflexivity).
  rewrite xorb_comm, Pos.mul_comm, Z.add_comm. reflexivity.
Qed.

Lemma mul_comm (x y : float) : x * y = y * x.
Proof. apply Prim2SF_inj. rewrite !mul_spec. apply SFmul_comm. Qed.

(** The square of a zero of either sign is [+0]. *)
Lemma square_zero (x : float) : (x =? 0) = true -> x * x = 0.
Proof.
  rewrite eqb_spec. change (Prim2SF 0) with (S754_zero false). intros H.
  apply Prim2SF_inj. rewrite mul_spec.
  destruct (Prim2SF x) as [s | s | | s m e]; try discriminate H;
    try (destruct s; discriminate H).
  destruct s; reflexivity.
Qed.

End Products.

Open Scope float_scope.

Lemma dot_comm (a b : Vector) : dot a b = dot b a.
Proof.
  unfold dot. generalize 0. revert b.
  induction a as [ | x a IH ]; intros [ | y b ] s; try reflexivity.
  cbn [combine fold_left fst snd]. rewrite (Products.mul_comm x y). apply IH.
Qed.

Lemma sum_squares_zero (v : Vector) :
  Forall (fun x => (x =? 0) = true) v -> sum_squares v = 0.
Proof.
  unfold sum_squares. induction 1 as [ | x v Hx Hv IH ]; [reflexivity | ].
  cbn [fold_left]. rewrite (Products.square_zero x Hx). exact IH.
Qed.

(** X1.  [cosineSimilarity] does not depend on the order of its two
    arguments: the two calls throw the same error or return the same
    number. *)
Theorem cosineSimilarity_sym (a b : Vector) :
  cosineSimilarity a b = cosineSimilarity b a.
Proof.
  destruct (Nat.eq_dec (length a) (length b)) as [E | E].
  - unfold cosineSimilarity.
    rewrite (Loops.cosine_loop_spec a b E).
    rewrite (Loops.cosine_loop_spec b a (eq_sym E)).
    rewrite E, Nat.eqb_refl. cbn [negb dotProduct normA normB].
    rewrite (dot_comm b a), (orb_comm (sum_squares b =? 0)).
    rewrite (Products.mul_comm (sqrt (sum_squares b))). reflexivity.
  - rewrite (Metrics.cosineSimilarity_throws a b E).
    rewrite (Metrics.cosineSimilarity_throws b a (not_eq_sym E)).
    reflexivity.
Qed.

(** X2.  A vector whose components are all zero (of either sign) has
    similarity [0] with every vector of its length, whatever that vector
    holds, [NaN] and infinities included. *)
Theorem cosineSimilarity_zero_vector (a b : Vector) :
  Forall (fun x => (x =? 0) = true) a -> length a = length b ->
  cosineSimilarity a b = Ok 0 /\ cosineSimilarity b a = Ok 0.
Proof.
  intros Hz E.
  assert (H : cosineSimilarity a b = Ok 0).
  { unfold cosineSimilarity. rewrite (Loops.cosine_loop_spec a b E).
    rewrite E, Nat.eqb_refl. cbn [negb normA].
    rewrite (sum_squares_zero a Hz). reflexivity. }
  split; [exact H | ]. rewrite <- H. apply cosineSimilarity_sym.
Qed.

Lemma cosineSimilarity_zero_vector_witness :
  cosineSimilarity [0; -0] [nan; infinity] = Ok 0 /\
  cosineSimilarity [nan; infinity] [0; -0] = Ok 0.
Proof.
  apply (cosineSimilarity_zero_vector [0; -0] [nan; infinity]);
    repeat constructor.
Defined.

(** X3.  [normalizeVector] hands back the very array it was given, and
    allocates nothing, whenever all the components are zero (of either
    sign); the empty array is such an array. *)
Theorem normalizeVector_zero_vector (h : store) (vector : ref) :
  Forall (fun x => (x =? 0) = true) (read h vector) ->
  normalizeVector h vector = (h, vector).
Proof.
  intros Hz. unfold normalizeVector.
  rewrite (sum_squares_zero _ Hz). reflexivity.
Qed.

Lemma normalizeVector_zero_vector_witness :
  normalizeVector [[1; 2]; [0; -0; 0]; []] 1%nat = ([[1; 2]; [0; -0; 0]; []], 1%nat)
  /\ normalizeVector [[1; 2]; [0; -0; 0]; []] 2%nat =
     ([[1; 2]; [0; -0; 0]; []], 2%nat).
Proof.
  split; apply normalizeVector_zero_vector; repeat constructor.
Defined.

(** * Further properties of [findSimilar] *)

Module Selection.

Lemma map_similarities_faithful (q : Vector) (vs : list Vector) :
  forall i l, map_similarities q vs i = Ok l ->
    Forall (fun x => (i <= index x)%nat /\
                     exists v, nth_error vs (index x - i) = Some v /\
                               cosineSimilarity q v = Ok (similarity x)) l.
Proof.
  induction vs as [ | v vs IH ]; intros i l H; cbn [map_similarities] in H.
  - apply Ok_inj in H. subst l. constructor.
  - destruct (cosineSimilarity q v) as [s | m] eqn:Es; cbn [bind] in H;
      [ | discriminate H].
    destruct (map_similarities q vs (S i)) as [tl | m] eqn:E;
      cbn [bind] in H; [ | discriminate H].
    apply Ok_inj in H. subst l. constructor.
    + cbn [index similarity]. split; [lia | ].
      exists v. rewrite Nat.sub_diag. split; [reflexivity | exact Es].
    + eapply Forall_impl; [ | exact (IH (S i) tl E)].
      intros x [Hle [v' [Hv' Hs']]]. split; [lia | ].
      exists v'. split; [ | exact Hs'].
      replace (index x - i)%nat with (S (index x - S i)) by lia. exact Hv'.
Qed.

Lemma map_similarities_complete (q : Vector) (vs : list Vector) :
  forall i l, map_similarities q vs i = Ok l ->
    forall k v s, nth_error vs k = Some v -> cosineSimilarity q v = Ok s ->
      In {| index := i + k; similarity := s |} l.
Proof.
  induction vs as [ | v vs IH ]; intros i l H k w s Hk Hs;
    [destruct k; discriminate Hk | ].
  cbn [map_similarities] in H.
  destruct (cosineSimilarity q v) as [s0 | m] eqn:Es; cbn [bind] in H;
    [ | discriminate H].
  destruct (map_similarities q vs (S i)) as [tl | m] eqn:E;
    cbn [bind] in H; [ | discriminate H].
  apply Ok_inj in H. subst l. destruct k as [ | k ]; cbn [nth_error] in Hk.
  - left. apply (f_equal (fun o => match o with Some x => x | None => w end))
      in Hk. cbn in Hk. subst w. rewrite Es in Hs. apply Ok_inj in Hs.
    subst s0. rewrite Nat.add_0_r. reflexivity.
  - right. rewrite Nat.add_succ_r. apply (IH (S i) tl E k w s Hk Hs).
Qed.

Lemma map_similarities_index_seq (q : Vector) (vs : list Vector) :
  forall i l, map_similarities q vs i = Ok l ->
    map index l = seq i (length vs).
Proof.
  induction vs as [ | v vs IH ]; intros i l H; cbn [map_similarities] in H.
  - apply Ok_inj in H. subst l. reflexivity.
  - destruct (cosineSimilarity q v) as [s | m]; cbn [bind] in H;
      [ | discriminate H].
    destruct (map_similarities q vs (S i)) as [tl | m] eqn:E;
      cbn [bind] in H; [ | discriminate H].
    apply Ok_inj in H. subst l. cbn. rewrite (IH (S i) tl E). reflexivity.
Qed.

Lemma NoDup_prefix {A : Type} (n : nat) (l : list A) :
  NoDup l -> NoDup (firstn n l).
Proof.
  intros H. rewrite <- (firstn_skipn n l) in H.
  eapply NoDup_app_remove_r, H.
Qed.

Lemma StronglySorted_app_inv {A : Type} (R : A -> A -> Prop) (l1 l2 : list A) :
  StronglySorted R (l1 ++ l2) ->
  forall x y, In x l1 -> In y l2 -> R x y.
Proof.
  induction l1 as [ | a l1 IH ]; intros H x y Hx Hy; [destruct Hx | ].
  cbn in H. inversion H as [ | ? ? Hs Ha ]; subst.
  destruct Hx as [<- | Hx].
  - rewrite Forall_forall in Ha. apply Ha, in_or_app. right. exact Hy.
  - apply IH; assumption.
Qed.

Lemma slice0_is_prefix {A : Type} (l : list A) (k : Z) :
  exists n, slice0 l k = firstn n l.
Proof. unfold slice0. eexists. reflexivity. Qed.

Lemma slice0_all {A : Type} (l : list A) (k : Z) :
  (Z.of_nat (length l) <= k)%Z -> slice0 l k = l.
Proof.
  intros H. unfold slice0.
  destruct (Z.ltb_spec k 0) as [Hneg | Hpos]; [lia | ].
  apply firstn_all2. lia.
Qed.

End Selection.

(** X4.  Every result of [findSimilar] points at a candidate and carries
    that candidate's cosine similarity with the query, and no candidate is
    returned twice. *)
Theorem findSimilar_faithful (q : Vector) (vs : list Vector) (topK : Z)
    (r : list SimilarityResult) :
  findSimilar q vs topK = Ok r ->
  Forall (fun x => exists v, nth_error vs (index x) = Some v /\
                             cosineSimilarity q v = Ok (similarity x)) r /\
  NoDup (map index r).
Proof.
  unfold findSimilar. intros H.
  destruct (map_similarities q vs 0) as [l | m] eqn:El; cbn [bind] in H;
    [ | discriminate H].
  apply Ok_inj in H. subst r. split.
  - apply Ranking.Forall_slice0, Ranking.Forall_sort.
    eapply Forall_impl; [ | exact (Selection.map_similarities_faithful q vs 0 l El)].
    intros x [_ [v [Hv Hs]]]. exists v. rewrite Nat.sub_0_r in Hv. auto.
  - destruct (Selection.slice0_is_prefix (sort by_similarity_desc l) topK)
      as [n ->].
    rewrite <- firstn_map. apply Selection.NoDup_prefix.
    eapply Permutation_NoDup.
    + apply Permutation_map, Ranking.sort_permutation.
    + rewrite (Selection.map_similarities_index_seq q vs 0 l El).
      apply seq_NoDup.
Qed.

Lemma findSimilar_faithful_witness :
  exists r,
    findSimilar [1; 0] [[1; 0]; [0; 1]; [0.9; 0.1]] 2 = Ok r /\
    NoDup (map index r).
Proof.
  destruct (findSimilar [1; 0] [[1; 0]; [0; 1]; [0.9; 0.1]] 2) as [r | m]
    eqn:H; [ | vm_compute in H; discriminate H].
  exists r. split; [reflexivity | ].
  apply (findSimilar_faithful [1; 0] [[1; 0]; [0; 1]; [0.9; 0.1]] 2 r H).
Defined.

(** X5.  When [topK] is at least the number of candidates, a successful
    [findSimilar] returns every candidate exactly once. *)
Theorem findSimilar_returns_all (q : Vector) (vs : list Vector) (topK : Z)
    (r : list SimilarityResult) :
  findSimilar q vs topK = Ok r -> (Z.of_nat (length vs) <= topK)%Z ->
  Permutation (map index r) (seq 0 (length vs)).
Proof.
  unfold findSimilar. intros H Hk.
  destruct (map_similarities q vs 0) as [l | m] eqn:El; cbn [bind] in H;
    [ | discriminate H].
  apply Ok_inj in H. subst r.
  assert (Hlen : length l = length vs).
  { rewrite <- (length_map index l).
    rewrite (Selection.map_similarities_index_seq q vs 0 l El).
    apply length_seq. }
  rewrite Selection.slice0_all
    by (rewrite Ranking.sort_length, Hlen; exact Hk).
  rewrite <- (Selection.map_similarities_index_seq q vs 0 l El).
  apply Permutation_map, Permutation_sym, Ranking.sort_permutation.
Qed.

Lemma findSimilar_returns_all_witness :
  exists r,
    findSimilar [1; 0] [[0; 1]; [1; 0]; [0.9; 0.1]] 5 = Ok r /\
    map index r = [1; 2; 0]%nat /\
    Permutation (map index r) [0; 1; 2]%nat.
Proof.
  destruct (findSimilar [1; 0] [[0; 1]; [1; 0]; [0.9; 0.1]] 5) as [r | m]
    eqn:H; [ | vm_compute in H; discriminate H].
  exists r. split; [reflexivity | ].
  split; [vm_compute in H; apply Ok_inj in H; subst r; reflexivity | ].
  apply (findSimilar_returns_all [1; 0] [[0; 1]; [1; 0]; [0.9; 0.1]] 5 r H).
  cbn. lia.
Defined.

(** X6.  [findSimilar] returns the best candidates: when no similarity is
    [NaN], a candidate that is left out has a similarity that is at most the
    similarity of every result returned. *)
Theorem findSimilar_keeps_the_best (q : Vector) (vs : list Vector) (topK : Z)
    (r : list SimilarityResult) :
  findSimilar q vs topK = Ok r ->
  (forall v s, In v vs -> cosineSimilarity q v = Ok s -> is_nan s = false) ->
  forall j v s x,
    nth_error vs j = Some v -> cosineSimilarity q v = Ok s ->
    ~ In j (map index r) -> In x r ->
    (s <=? similarity x) = true.
Proof.
  unfold findSimilar. intros H Hn j v s x Hj Hs Hout Hx.
  destruct (map_similarities q vs 0) as [l | m] eqn:El; cbn [bind] in H;
    [ | discriminate H].
  apply Ok_inj in H. subst r.
  pose proof (Ranking.map_similarities_no_nan q vs Hn 0 l El) as Hnan.
  destruct (Ranking.map_similarities_indices q vs 0 l El) as [Hidx _].
  pose proof (Ranking.sort_ranked l Hnan Hidx) as Hsorted.
  pose proof (Ranking.Forall_sort by_similarity_desc no_nan l Hnan) as Hsn.
  pose proof (Selection.map_similarities_complete q vs 0 l El j v s Hj Hs)
    as Hin.
  cbn [Nat.add] in Hin.
  set (e := {| index := j; similarity := s |}) in *.
  set (L := sort by_similarity_desc l) in *.
  destruct (Selection.slice0_is_prefix L topK) as [n Hn'].
  rewrite Hn' in Hout, Hx.
  assert (HeL : In e L)
    by (eapply Permutation_in; [apply Ranking.sort_permutation | exact Hin]).
  rewrite <- (firstn_skipn n L) in HeL, Hsorted.
  apply in_app_or in HeL. destruct HeL as [He | He].
  - exfalso. apply Hout. apply (in_map index) in He. exact He.
  - pose proof (Selection.StronglySorted_app_inv _ _ _ Hsorted x e Hx He)
      as Hrank.
    rewrite Forall_forall in Hsn.
    assert (Hxn : no_nan x).
    { apply Hsn. rewrite <- (firstn_skipn n L). apply in_or_app. left.
      exact Hx. }
    assert (Hen : no_nan e).
    { apply Hsn. rewrite <- (firstn_skipn n L). apply in_or_app. right.
      exact He. }
    exact (Ranking.ranks_before_leb x e Hxn Hen Hrank).
Qed.

Lemma findSimilar_keeps_the_best_witness :
  exists r x,
    findSimilar [1; 0] [[0; 1]; [1; 0]; [0.9; 0.1]] 2 = Ok r /\
    map index r = [1; 2]%nat /\ nth_error r 1 = Some x /\
    (0 <=? similarity x) = true.
Proof.
  destruct (findSimilar [1; 0] [[0; 1]; [1; 0]; [0.9; 0.1]] 2) as [r | m]
    eqn:H; [ | vm_compute in H; discriminate H].
  assert (Hr : map index r = [1; 2]%nat)
    by (vm_compute in H; apply Ok_inj in H; subst r; reflexivity).
  destruct (nth_error r 1) as [x | ] eqn:Hx;
    [ | vm_compute in H; apply Ok_inj in H; subst r; discriminate Hx].
  exists r, x. split; [reflexivity | split; [exact Hr | split; [exact Hx | ]]].
  apply (findSimilar_keeps_the_best
           [1; 0] [[0; 1]; [1; 0]; [0.9; 0.1]] 2 r H) with (j := 0%nat)
           (v := [0; 1]).
  - intros v s [<- | [<- | [<- | []]]] E; vm_compute in E;
      apply Ok_inj in E; subst s; reflexivity.
  - reflexivity.
  - vm_compute. reflexivity.
  - rewrite Hr. cbn. intros [E | [E | []]]; discriminate E.
  - eapply nth_error_In, Hx.
Defined.

(** X7.  Whatever [topK] is, [findSimilar] returns a prefix of the full
    ranking of the candidates: its first [topK] entries when [topK] is not
    negative, and all but its last [-topK] entries when [topK] is
    negative. *)
Theorem findSimilar_prefix_of_ranking (q : Vector) (vs : list Vector)
    (topK : Z) (full : list SimilarityResult) :
  findSimilar q vs (Z.of_nat (length vs)) = Ok full ->
  ((0 <= topK)%Z ->
   findSimilar q vs topK = Ok (firstn (Z.to_nat topK) full)) /\
  ((topK < 0)%Z ->
   findSimilar q vs topK =
   Ok (firstn (length vs - Z.to_nat (- topK)) full)).
Proof.
  unfold findSimilar. intros H.
  destruct (map_similarities q vs 0) as [l | m] eqn:El; cbn [bind] in H;
    [ | discriminate H].
  apply Ok_inj in H.
  assert (Hlen : length (sort by_similarity_desc l) = length vs).
  { rewrite Ranking.sort_length, <- (length_map index l).
    rewrite (Selection.map_similarities_index_seq q vs 0 l El).
    apply length_seq. }
  rewrite Selection.slice0_all in H by lia. subst full.
  cbn [bind]. unfold slice0. rewrite Hlen.
  split; intros Hk; f_equal.
  - destruct (Z.ltb_spec topK 0) as [Hneg | _]; [lia | ].
    destruct (Z.le_gt_cases topK (Z.of_nat (length vs))) as [Hle | Hgt].
    + rewrite Z.min_l by exact Hle. reflexivity.
    + rewrite !firstn_all2 by lia. reflexivity.
  - destruct (Z.ltb_spec topK 0) as [_ | Hpos]; [ | lia].
    f_equal. lia.
Qed.

Lemma findSimilar_prefix_of_ranking_witness :
  exists full,
    findSimilar [1; 0] [[0; 1]; [1; 0]; [0.9; 0.1]] 3 = Ok full /\
    findSimilar [1; 0] [[0; 1]; [1; 0]; [0.9; 0.1]] 1 = Ok (firstn 1 full) /\
    findSimilar [1; 0] [[0; 1]; [1; 0]; [0.9; 0.1]] (-1) = Ok (firstn 2 full).
Proof.
  destruct (findSimilar [1; 0] [[0; 1]; [1; 0]; [0.9; 0.1]] 3) as [full | m]
    eqn:H; [ | vm_compute in H; discriminate H].
  exists full. split; [reflexivity | ].
  pose proof (findSimilar_prefix_of_ranking
                [1; 0] [[0; 1]; [1; 0]; [0.9; 0.1]] 1 full H) as [H1 _].
  pose proof (findSimilar_prefix_of_ranking
                [1; 0] [[0; 1]; [1; 0]; [0.9; 0.1]] (-1) full H) as [_ H2].
  split; [apply H1; lia | apply H2; lia].
Defined.

(** * Further properties of the embedder singleton *)

Module Accounting.

Import EmbedderSpec.

Lemma step_keeps_backend (s s' : state) (e : event) :
  step s e = Some s' -> embedder s <> None -> embedder s' <> None.
Proof.
  intros H Hs.
  destruct e as [m | text o | texts o | t | t err | t | t tensor];
    cbn [step] in H.
  1-3: unfold vectorize, vectorizeBatch, embed, initializeEmbedder in H;
       destruct (embedder s) as [h | ] eqn:E; [ | contradiction];
       injection H as <-; cbn; rewrite E; discriminate.
  1-2: unfold pipeline_settles in H;
       destruct (nth_error (tasks s) t) as [[[ | | ] | ? ? [ | | ] | | ] | ];
       try discriminate H; injection H as <-; cbn; (discriminate || exact Hs).
  - destruct (nth_error (tasks s) t) as [[ | i o p | | ] | ];
      try discriminate H.
    destruct (embed_continue i o p s); [ | discriminate H].
    injection H as <-. exact Hs.
  - destruct (nth_error (tasks s) t) as [[ | | call used | ] | ];
      try discriminate H.
    injection H as <-. exact Hs.
Qed.

Lemma filter_replace_settled (x : task) :
  awaiting_pipeline x = false ->
  forall (l : list task) (n : nat) (old : task),
    nth_error l n = Some old ->
    (length (filter awaiting_pipeline (replace_nth n x l))
     + (if awaiting_pipeline old then 1 else 0)
     = length (filter awaiting_pipeline l))%nat.
Proof.
  intros Hx. induction l as [ | y l IH ]; intros n old Hn;
    [destruct n; discriminate Hn | ].
  destruct n as [ | n ]; cbn [nth_error replace_nth filter] in *.
  - injection Hn as ->. rewrite Hx.
    destruct (awaiting_pipeline old); cbn [length]; lia.
  - specialize (IH n old Hn).
    destruct (awaiting_pipeline y); cbn [length]; lia.
Qed.

Lemma in_flight_spawn (t : task) (s : state) :
  in_flight (spawn t s) =
  (in_flight s + (if awaiting_pipeline t then 1 else 0))%nat.
Proof.
  unfold in_flight, spawn. cbn [tasks]. rewrite filter_app, length_app.
  cbn [filter]. destruct (awaiting_pipeline t); reflexivity.
Qed.

Lemma enter_accounted (model : string) (s : state) (mk : init_point -> task) :
  (forall p, awaiting_pipeline (mk p) =
             match p with AwaitPipeline _ => true | _ => false end) ->
  accounted s ->
  accounted (spawn (mk (fst (initializeEmbedder model s)))
               (snd (initializeEmbedder model s))).
Proof.
  intros Hmk [He [Hc Hp]]. unfold initializeEmbedder.
  destruct (embedder s) as [h | ] eqn:E; cbn [fst snd];
    unfold accounted; rewrite in_flight_spawn, Hmk;
    unfold in_flight in *; cbn [spawn embedder tasks pipelines created];
    rewrite ?length_app; cbn [length]; repeat split; try lia.
  - rewrite E. exact He.
  - exact He.
Qed.

Lemma settle_accounted (t : nat) (f : string -> result Backend)
    (s s' : state) :
  pipeline_settles t f s = Some s' -> accounted s -> accounted s'.
Proof.
  unfold pipeline_settles. intros H [He [Hc Hp]].
  destruct (nth_error (tasks s) t) as [old | ] eqn:Et; [ | discriminate H].
  assert (Hsettled : forall (mk : init_point -> task) m,
             old = mk (AwaitPipeline m) ->
             awaiting_pipeline (mk (AwaitPipeline m)) = true ->
             (forall p, p <> AwaitPipeline m ->
                        match p with AwaitPipeline _ => False | _ => True end ->
                        awaiting_pipeline (mk p) = false) ->
             (let '(p, s1) := initializeEmbedder_resume (f m) s in
              Some (set_task t (mk p) s1)) = Some s' ->
             accounted s').
  { intros mk m Hold Hawait Hmk Hs'.
    unfold initializeEmbedder_resume in Hs'.
    destruct (f m) as [h | err]; cbn iota beta in Hs'; injection Hs' as <-;
      unfold accounted, in_flight in *;
      cbn [set_task embedder tasks pipelines created];
      rewrite ?Lifecycle.length_replace_nth.
    - pose proof (filter_replace_settled (mk (Returned h))
                    (Hmk (Returned h) ltac:(discriminate) I) (tasks s) t old Et)
        as Hf.
      rewrite Hold, Hawait in Hf. rewrite length_app. cbn [length].
      repeat split; try lia.
      rewrite map_app. cbn [map]. rewrite last_last. reflexivity.
    - pose proof (filter_replace_settled (mk (Rejected err))
                    (Hmk (Rejected err) ltac:(discriminate) I) (tasks s) t old Et)
        as Hf.
      rewrite Hold, Hawait in Hf. repeat split; try lia. exact He. }
  destruct old as [[m | | ] | i o [m | | ] | | ]; try discriminate H.
  - apply (Hsettled Initialize m eq_refl eq_refl); [ | exact H].
    intros [ | | ]; intros; try reflexivity; contradiction.
  - apply (Hsettled (EmbedInit i o) m eq_refl eq_refl); [ | exact H].
    intros [ | | ]; intros; try reflexivity; contradiction.
Qed.

Lemma set_settled_accounted (t : nat) (old next : task) (s : state) :
  nth_error (tasks s) t = Some old ->
  awaiting_pipeline old = false -> awaiting_pipeline next = false ->
  accounted s -> accounted (set_task t next s).
Proof.
  intros Et Ho Hn [He [Hc Hp]].
  pose proof (filter_replace_settled next Hn (tasks s) t old Et) as Hf.
  rewrite Ho in Hf.
  unfold accounted, in_flight in *.
  cbn [set_task embedder tasks pipelines created].
  rewrite Lifecycle.length_replace_nth. repeat split; try lia. exact He.
Qed.

Lemma step_accounted (s s' : state) (e : event) :
  step s e = Some s' -> accounted s -> accounted s'.
Proof.
  intros H Hs.
  destruct e as [m | text o | texts o | t | t err | t | t tensor];
    cbn [step] in H.
  - pose proof (enter_accounted (model_or_default m) s Initialize
                  ltac:(intros [ | | ]; reflexivity) Hs) as Ha.
    destruct (initializeEmbedder (model_or_default m) s) as [p s1].
    injection H as <-. exact Ha.
  - unfold vectorize, embed in H.
    pose proof (enter_accounted (model_or_default (modelName o)) s
                  (EmbedInit (OneText text) o)
                  ltac:(intros [ | | ]; reflexivity) Hs) as Ha.
    destruct (initializeEmbedder (model_or_default (modelName o)) s)
      as [p s1].
    injection H as <-. exact Ha.
  - unfold vectorizeBatch, embed in H.
    pose proof (enter_accounted (model_or_default (modelName o)) s
                  (EmbedInit (Texts texts) o)
                  ltac:(intros [ | | ]; reflexivity) Hs) as Ha.
    destruct (initializeEmbedder (model_or_default (modelName o)) s)
      as [p s1].
    injection H as <-. exact Ha.
  - eapply settle_accounted; eassumption.
  - eapply settle_accounted; eassumption.
  - destruct (nth_error (tasks s) t) as [old | ] eqn:Et; [ | discriminate H].
    destruct old as [ | i o p | | ]; try discriminate H.
    destruct (embed_continue i o p s) as [next | ] eqn:En; [ | discriminate H].
    injection H as <-.
    apply (set_settled_accounted t (EmbedInit i o p) next s Et); try assumption.
    + destruct p; [discriminate En | reflexivity | reflexivity].
    + eapply Lifecycle.embed_continue_settled, En.
  - destruct (nth_error (tasks s) t) as [old | ] eqn:Et; [ | discriminate H].
    destruct old as [ | | call used | ]; try discriminate H.
    injection H as <-.
    apply (set_settled_accounted t (EmbedRun call used) _ s Et);
      try assumption; reflexivity.
Qed.

End Accounting.

(** X8.  Nothing ever empties the embedder: once [getModelInfo] reports an
    initialized backend it reports one after every further call, resolution,
    rejection or inference, overlapping calls included. *)
Theorem initialized_for_good (es : list event) :
  forall s s', run s es = Some s' ->
    getModelInfo s = true -> getModelInfo s' = true.
Proof.
  induction es as [ | e es IH ]; intros s s' H Hs; cbn [run] in H.
  - injection H as <-. exact Hs.
  - destruct (step s e) as [s1 | ] eqn:E; [ | discriminate H].
    apply (IH s1 s' H). unfold getModelInfo in *.
    pose proof (Accounting.step_keeps_backend s s1 e E) as Hk.
    destruct (embedder s); [ | discriminate Hs].
    destruct (embedder s1); [reflexivity | ].
    exfalso. apply Hk; [discriminate | reflexivity].
Qed.

Lemma initialized_for_good_witness :
  exists s',
    run initial [CallInitializeEmbedder None; PipelineResolves 0;
                 CallVectorize "text" (with_model "other");
                 CallInitializeEmbedder (Some "other");
                 Continue 1;
                 BackendAnswers 1 (Throw "inference failed")] = Some s' /\
    getModelInfo s' = true.
Proof.
  pose (s := {| embedder := Some {| loaded_model := default_model;
                                    created_by := 0 |};
                tasks := [Initialize (Returned {| loaded_model := default_model;
                                                  created_by := 0 |})];
                pipelines := [default_model];
                created := [{| loaded_model := default_model;
                               created_by := 0 |}] |}).
  destruct (run s [CallVectorize "text" (with_model "other");
                   CallInitializeEmbedder (Some "other");
                   Continue 1;
                   BackendAnswers 1 (Throw "inference failed")])
    as [s' | ] eqn:H; [ | vm_compute in H; discriminate H].
  exists s'. split; [exact H | ].
  apply (initialized_for_good _ s s' H). reflexivity.
Defined.

(** X9.  In every state reached from the start, the embedder is the backend
    created last (none when none was created), and each backend comes from
    a [pipeline] call of its own that is no longer in flight: backends
    created plus calls in flight never exceed the [pipeline] calls made,
    which never exceed the calls made. *)
Theorem reachable_accounting (es : list event) (s : state) :
  run initial es = Some s ->
  embedder s = last (map Some (created s)) None /\
  (length (created s) + length (filter awaiting_pipeline (tasks s))
   <= length (pipelines s))%nat /\
  (length (pipelines s) <= length (tasks s))%nat.
Proof.
  assert (G : forall es s0 s1, run s0 es = Some s1 ->
                EmbedderSpec.accounted s0 -> EmbedderSpec.accounted s1).
  { clear. induction es as [ | e es IH ]; intros s0 s1 H H0; cbn [run] in H.
    - injection H as <-. exact H0.
    - destruct (step s0 e) as [s' | ] eqn:E; [ | discriminate H].
      apply (IH s' s1 H). eapply Accounting.step_accounted; eassumption. }
  intros H. apply (G es initial s H).
  unfold EmbedderSpec.accounted, EmbedderSpec.in_flight. cbn.
  repeat split; lia.
Qed.

Lemma reachable_accounting_witness :
  exists s,
    run initial concurrent_vectorize = Some s /\
    embedder s = last (map Some (created s)) None /\
    (length (created s) <= length (pipelines s))%nat.
Proof.
  destruct (run initial concurrent_vectorize) as [s | ] eqn:H;
    [ | vm_compute in H; discriminate H].
  exists s. split; [reflexivity | ].
  destruct (reachable_accounting concurrent_vectorize s H) as [He [Hc _]].
  split; [exact He | ].
  eapply Nat.le_trans; [apply Nat.le_add_r | exact Hc].
Defined.

Module Serving.

Import EmbedderSpec.

Lemma Forall_replace_nth {A : Type} (P : A -> Prop) (x : A) :
  forall (l : list A) (n : nat),
    P x -> Forall P l -> Forall P (replace_nth n x l).
Proof.
  induction l as [ | y l IH ]; intros n Hx H; [constructor | ].
  inversion H as [ | ? ? Hy Hl ]; subst.
  destruct n as [ | n ]; cbn [replace_nth]; constructor; auto.
Qed.

Lemma settled_not_awaiting (h : Backend) (t : task) :
  settled_on h t -> awaiting_pipeline t = false.
Proof.
  destruct t as [[ | | ] | i o [ | | ] | | ]; cbn; intros H;
    try discriminate H; reflexivity.
Qed.

Lemma settled_quiescent (h : Backend) (s : state) :
  Forall (settled_on h) (tasks s) -> quiescent s = true.
Proof.
  unfold quiescent. intros H. apply forallb_forall. intros t Ht.
  rewrite Forall_forall in H.
  rewrite (settled_not_awaiting h t (H t Ht)). reflexivity.
Qed.

Lemma Forall_spawn (P : task -> Prop) (t : task) (s : state) :
  P t -> Forall P (tasks s) -> Forall P (tasks (spawn t s)).
Proof.
  intros Ht Hs. cbn [spawn tasks]. apply Forall_app. split; [exact Hs | ].
  constructor; [exact Ht | constructor].
Qed.

Lemma step_settled (s s' : state) (e : event) (h : Backend) :
  embedder s = Some h -> Forall (settled_on h) (tasks s) ->
  step s e = Some s' -> Forall (settled_on h) (tasks s').
Proof.
  intros Hh Hs H.
  pose proof (settled_quiescent h s Hs) as Hq.
  destruct e as [m | text o | texts o | t | t err | t | t tensor];
    cbn [step] in H.
  1-3: unfold vectorize, vectorizeBatch, embed in H;
       rewrite (Lifecycle.initializeEmbedder_initialized _ s h Hh) in H;
       injection H as <-; apply Forall_spawn; [reflexivity | exact Hs].
  1-2: destruct (Lifecycle.pipeline_settles_awaiting _ _ _ _ H)
         as [tk [Et Hk]];
       pose proof (Lifecycle.forallb_nth_error _ _ _ _ Hq Et) as Hk';
       cbn beta in Hk'; rewrite Hk in Hk'; discriminate Hk'.
  - destruct (nth_error (tasks s) t) as [tk | ] eqn:Et; [ | discriminate H].
    destruct tk as [ | i o p | | ]; try discriminate H.
    destruct (embed_continue i o p s) as [next | ] eqn:En; [ | discriminate H].
    injection H as <-. cbn [set_task tasks].
    apply Forall_replace_nth; [ | exact Hs].
    rewrite Forall_forall in Hs.
    pose proof (Hs _ (nth_error_In _ _ Et)) as Hp. cbn in Hp. subst p.
    cbn [embed_continue] in En. rewrite Hh in En.
    injection En as <-. reflexivity.
  - destruct (nth_error (tasks s) t) as [tk | ] eqn:Et; [ | discriminate H].
    destruct tk as [ | | call used | ]; try discriminate H.
    injection H as <-. cbn [set_task tasks].
    apply Forall_replace_nth; [exact I | exact Hs].
Qed.

End Serving.

(** X10.  Once a backend is in place and every call made so far has got it,
    every call that follows gets it too, whatever model it names:
    [initializeEmbedder] returns it, [vectorize] and [vectorizeBatch] run
    their inference on it, and [pipeline] is never invoked again. *)
Theorem one_backend_serves_all (es : list event) :
  forall (s s' : state) (h : Backend),
    embedder s = Some h ->
    Forall (EmbedderSpec.settled_on h) (tasks s) ->
    run s es = Some s' ->
    embedder s' = Some h /\
    Forall (EmbedderSpec.settled_on h) (tasks s') /\
    pipelines s' = pipelines s /\ created s' = created s.
Proof.
  induction es as [ | e es IH ]; intros s s' h Hh Hs H; cbn [run] in H.
  - injection H as <-. auto.
  - destruct (step s e) as [s1 | ] eqn:E; [ | discriminate H].
    pose proof (Serving.settled_quiescent h s Hs) as Hq.
    destruct (Lifecycle.step_memoized s s1 e h Hh Hq E)
      as [Hh1 [_ [Hp1 Hc1]]].
    pose proof (Serving.step_settled s s1 e h Hh Hs E) as Hs1.
    destruct (IH s1 s' h Hh1 Hs1 H) as [Hh' [Hs' [Hp' Hc']]].
    rewrite Hp', Hc', Hp1, Hc1. auto.
Qed.

Lemma one_backend_serves_all_witness :
  exists s',
    run initial [CallInitializeEmbedder (Some "model-A"); PipelineResolves 0;
                 CallVectorize "text" (with_model "model-B");
                 CallInitializeEmbedder (Some "model-C");
                 Continue 1] = Some s' /\
    embedder s' = Some backend_A /\
    pipelines s' = ["model-A"]%string /\ created s' = [backend_A] /\
    Forall (EmbedderSpec.settled_on backend_A) (tasks s').
Proof.
  pose (s := {| embedder := Some backend_A;
                tasks := [Initialize (Returned backend_A)];
                pipelines := ["model-A"%string];
                created := [backend_A] |}).
  destruct (run s [CallVectorize "text" (with_model "model-B");
                   CallInitializeEmbedder (Some "model-C");
                   Continue 1])
    as [s' | ] eqn:H; [ | vm_compute in H; discriminate H].
  exists s'. split; [exact H | ].
  destruct (one_backend_serves_all _ s s' backend_A eq_refl
              ltac:(repeat constructor) H) as [He [Hs [Hp Hc]]].
  split; [exact He | split; [exact Hp | split; [exact Hc | exact Hs]]].
Defined.



(** X12.  When the [pipeline] call behind a [vectorize] call rejects, the
    call ends by throwing that same error, no backend is stored or counted
    as created, and the model it asked for is the only [pipeline] call
    added. *)
Theorem vectorize_failed_load (s : state) (text : string)
    (o : VectorizeOptions) (err : string) :
  embedder s = None ->
  exists s',
    run s [CallVectorize text o;
           PipelineRejects (length (tasks s)) err;
           Continue (length (tasks s))] = Some s' /\
    nth_error (tasks s') (length (tasks s)) = Some (EmbedDone (Throw err)) /\
    embedder s' = None /\
    pipelines s' = (pipelines s ++ [model_or_default (modelName o)])%list /\
    created s' = created s.
Proof.
  intros He.
  assert (E1 : step s (CallVectorize text o) =
               Some (spawn (EmbedInit (OneText text) o
                              (AwaitPipeline (model_or_default (modelName o))))
                       {| embedder := embedder s; tasks := tasks s;
                          pipelines :=
                            pipelines s ++ [model_or_default (modelName o)];
                          created := created s |})).
  { cbn [step]. unfold vectorize, embed, initializeEmbedder. rewrite He.
    reflexivity. }
  set (s1 := spawn _ _) in E1.
  assert (Ht : nth_error (tasks s1) (length (tasks s)) =
               Some (EmbedInit (OneText text) o
                       (AwaitPipeline (model_or_default (modelName o))))).
  { subst s1. cbn [spawn tasks]. rewrite nth_error_app2 by lia.
    rewrite Nat.sub_diag. reflexivity. }
  assert (Hlt : (length (tasks s) < length (tasks s1))%nat).
  { apply nth_error_Some. rewrite Ht. discriminate. }
  cbn [run]. rewrite E1. cbn [step]. unfold pipeline_settles. rewrite Ht.
  cbn [initializeEmbedder_resume set_task tasks].
  rewrite Lifecycle.nth_error_replace_nth by exact Hlt.
  cbn [embed_continue]. eexists. split; [reflexivity | ].
  cbn [set_task tasks embedder pipelines created].
  split; [ | subst s1; cbn [spawn embedder pipelines created]; auto].
  apply Lifecycle.nth_error_replace_nth.
  rewrite Lifecycle.length_replace_nth. exact Hlt.
Qed.

Lemma vectorize_failed_load_witness :
  exists s',
    run initial [CallVectorize "text" (with_model "no-such-model");
                 PipelineRejects 0 "Could not locate file";
                 Continue 0] = Some s' /\
    tasks s' = [EmbedDone (Throw "Could not locate file"%string)] /\
    getModelInfo s' = false.
Proof.
  destruct (vectorize_failed_load initial "text" (with_model "no-such-model")
              "Could not locate file" eq_refl)
    as [s' [Hr [Ht [He _]]]].
  exists s'. split; [exact Hr | ].
  split.
  - vm_compute in Hr. injection Hr as <-. reflexivity.
  - unfold getModelInfo. rewrite He. reflexivity.
Defined.

(** * The HTTP routes *)

Module Validation.

Import Http.

Lemma text_test (v : js) :
  negb (truthy v) || negb (typeof_string v) = negb (nonempty_string v).
Proof.
  destruct v as [ | | b | x | s | items | properties ]; cbn;
    try reflexivity; try (destruct (negb _); reflexivity).
Qed.

Lemma texts_test (v : js) :
  negb (isArray v) || existsb (fun t => negb (typeof_string t)) (items_of v)
  = negb (array_of_strings v).
Proof.
  destruct v as [ | | b | x | s | items | properties ]; cbn [isArray negb orb];
    try reflexivity.
  cbn [items_of array_of_strings].
  induction items as [ | t items IH ]; [reflexivity | ].
  cbn [existsb forallb]. rewrite IH.
  destruct (typeof_string t); reflexivity.
Qed.

Lemma both_test (a b : js) :
  negb (truthy a) || negb (truthy b)
  || negb (typeof_string a) || negb (typeof_string b)
  = negb (nonempty_string a && nonempty_string b).
Proof.
  rewrite negb_andb, <- !text_test.
  destruct (truthy a), (truthy b), (typeof_string a), (typeof_string b);
    reflexivity.
Qed.

Lemma parsed_body_object (engine : Engine) (parsed : js) :
  parsed <> JNull -> parsed <> JUndefined ->
  parsed_body engine (Ok parsed) = Ok parsed.
Proof.
  intros Hn Hu. destruct parsed; try reflexivity; contradiction.
Qed.

End Validation.

Import Http.

(** X13.  [/vectorize] answers 400 with its fixed message, without calling
    [vectorize], exactly when the [text] of the body is not a non-empty
    string (missing, empty, or of another type).  Otherwise it calls
    [vectorize] with that text and the body's [options]; it then answers
    200 with the text, the vector and the vector's length as [dimensions],
    or, when the call fails, 500 with the message of the error.  A body that
    does not parse is answered 500 with the parser's message. *)
Theorem vectorize_route_spec (engine : Engine) (parsed : js) :
  parsed <> JNull -> parsed <> JUndefined ->
  (nonempty_string (property "text" parsed) = false ->
   vectorize_route engine (Ok parsed) =
   Respond (json (ErrorBody text_required) 400)) /\
  (nonempty_string (property "text" parsed) = true ->
   exists k,
     vectorize_route engine (Ok parsed) =
     AwaitVectorize (property "text" parsed) (property "options" parsed) k /\
     (forall v, k (Ok (Some v)) =
                json (VectorBody (property "text" parsed) v (length v)) 200) /\
     (forall e, k (Throw e) = json (ErrorBody e) 500)) /\
  (forall e, vectorize_route engine (Throw e) =
             Respond (json (ErrorBody e) 500)).
Proof.
  intros Hn Hu. unfold vectorize_route, vectorize_script.
  rewrite (Validation.parsed_body_object engine parsed Hn Hu).
  rewrite Validation.text_test.
  split; [ | split].
  - intros ->. reflexivity.
  - intros ->. cbn [negb route]. eexists. split; [reflexivity | ].
    split; intros; reflexivity.
  - intros e. reflexivity.
Qed.

Lemma vectorize_route_spec_witness :
  (forall engine,
     vectorize_route engine
       (Ok (JObject [("text"%string, JString "")])) =
     Respond (json (ErrorBody text_required) 400)) /\
  (forall engine,
     vectorize_route engine
       (Ok (JObject [("text"%string, JNumber 7)])) =
     Respond (json (ErrorBody text_required) 400)) /\
  (forall engine, exists k,
     vectorize_route engine
       (Ok (JObject [("text"%string, JString "hello")])) =
     AwaitVectorize (JString "hello") JUndefined k /\
     k (Ok (Some [1; 2; 3])) =
     json (VectorBody (JString "hello") [1; 2; 3] 3) 200).
Proof.
  split; [ | split]; intros engine.
  - apply (vectorize_route_spec engine
             (JObject [("text"%string, JString "")]));
      [discriminate | discriminate | reflexivity].
  - apply (vectorize_route_spec engine
             (JObject [("text"%string, JNumber 7)]));
      [discriminate | discriminate | reflexivity].
  - destruct (vectorize_route_spec engine
                (JObject [("text"%string, JString "hello")])
                ltac:(discriminate) ltac:(discriminate))
      as [_ [H _]].
    destruct (H eq_refl) as [k [Hk [Hv _]]].
    exists k. split; [exact Hk | apply Hv].
Defined.

(** X14.  [/vectorize-batch] answers 400 with its fixed message, without
    calling [vectorizeBatch], exactly when [texts] is not an array of
    strings; the empty array and empty strings pass.  Otherwise it calls
    [vectorizeBatch] and answers 200 with the number of vectors as [count]
    and the length of the first vector as [dimensions] ([0] when there is
    none).  Every failure, a body that does not parse included, is answered
    500 with the one message "Failed to vectorize texts", whatever the error
    was. *)
Theorem batch_route_spec (engine : Engine) (parsed : js) :
  parsed <> JNull -> parsed <> JUndefined ->
  (array_of_strings (property "texts" parsed) = false ->
   batch_route engine (Ok parsed) =
   Respond (json (ErrorBody texts_required) 400)) /\
  (array_of_strings (property "texts" parsed) = true ->
   exists k,
     batch_route engine (Ok parsed) =
     AwaitVectorizeBatch (property "texts" parsed)
       (property "options" parsed) k /\
     (forall vs, k (Ok vs) =
                 json (BatchBody (property "texts" parsed) vs (length vs)
                         (length (hd [] vs))) 200) /\
     (forall e, k (Throw e) = json (ErrorBody failed_batch) 500)) /\
  (forall e, batch_route engine (Throw e) =
             Respond (json (ErrorBody failed_batch) 500)) /\
  batch_route engine (Ok JNull) =
  Respond (json (ErrorBody failed_batch) 500).
Proof.
  intros Hn Hu. unfold batch_route, batch_script.
  rewrite (Validation.parsed_body_object engine parsed Hn Hu).
  rewrite Validation.texts_test.
  split; [ | split; [ | split]].
  - intros ->. reflexivity.
  - intros ->. cbn [negb route]. eexists. split; [reflexivity | ].
    split; [ | intros; reflexivity].
    intros [ | v vs ]; reflexivity.
  - intros e. reflexivity.
  - reflexivity.
Qed.

Lemma batch_route_spec_witness :
  (forall engine,
     batch_route engine
       (Ok (JObject [("texts"%string, JArray [JString "a"; JNumber 1])])) =
     Respond (json (ErrorBody texts_required) 400)) /\
  (forall engine, exists k,
     batch_route engine (Ok (JObject [("texts"%string, JArray [])])) =
     AwaitVectorizeBatch (JArray []) JUndefined k /\
     k (Ok []) = json (BatchBody (JArray []) [] 0 0) 200) /\
  (forall engine, exists k,
     batch_route engine
       (Ok (JObject [("texts"%string, JArray [JString ""; JString "b"])])) =
     AwaitVectorizeBatch (JArray [JString ""; JString "b"]) JUndefined k /\
     k (Throw "out of memory"%string) = json (ErrorBody failed_batch) 500).
Proof.
  split; [ | split]; intros engine.
  - apply (batch_route_spec engine
             (JObject [("texts"%string, JArray [JString "a"; JNumber 1])]));
      [discriminate | discriminate | reflexivity].
  - destruct (batch_route_spec engine
                (JObject [("texts"%string, JArray [])])
                ltac:(discriminate) ltac:(discriminate))
      as [_ [H _]].
    destruct (H eq_refl) as [k [Hk [Hv _]]].
    exists k. split; [exact Hk | apply Hv].
  - destruct (batch_route_spec engine
                (JObject [("texts"%string,
                           JArray [JString ""; JString "b"])])
                ltac:(discriminate) ltac:(discriminate))
      as [_ [H _]].
    destruct (H eq_refl) as [k [Hk [_ He]]].
    exists k. split; [exact Hk | apply He].
Defined.

(** X15.  [/similarity] answers 400 with its fixed message, without calling
    [vectorizeBatch], exactly when [textA] and [textB] are not both
    non-empty strings.  Otherwise it embeds the two texts in one
    [vectorizeBatch] call and answers 200 with the cosine similarity of the
    first two vectors and the label of that similarity.  When the two
    vectors differ in length, when fewer than two vectors come back, and
    when the call fails, it answers 500 with the one message "Failed to
    calculate similarity".  The route of [src/helpers/index.ts] answers
    alike. *)
Theorem similarity_route_spec (engine : Engine) (parsed : js) :
  parsed <> JNull -> parsed <> JUndefined ->
  (nonempty_string (property "textA" parsed)
   && nonempty_string (property "textB" parsed) = false ->
   similarity_route engine (Ok parsed) =
   Respond (json (ErrorBody both_required) 400)) /\
  (nonempty_string (property "textA" parsed)
   && nonempty_string (property "textB" parsed) = true ->
   exists k,
     similarity_route engine (Ok parsed) =
     AwaitVectorizeBatch
       (JArray [property "textA" parsed; property "textB" parsed])
       (property "options" parsed) k /\
     (forall a b rest s, cosineSimilarity a b = Ok s ->
        k (Ok (a :: b :: rest)) =
        json (SimilarityBody (property "textA" parsed)
                (property "textB" parsed) s (Labels.getSimilarity s)) 200) /\
     (forall a b rest, length a <> length b ->
        k (Ok (a :: b :: rest)) = json (ErrorBody failed_similarity) 500) /\
     (forall vs, (length vs < 2)%nat ->
        k (Ok vs) = json (ErrorBody failed_similarity) 500) /\
     (forall e, k (Throw e) = json (ErrorBody failed_similarity) 500)) /\
  (forall request,
     similarity_route_helpers engine request =
     similarity_route engine request).
Proof.
  intros Hn Hu. unfold similarity_route, similarity_script.
  rewrite (Validation.parsed_body_object engine parsed Hn Hu).
  rewrite Validation.both_test.
  split; [ | split].
  - intros ->. reflexivity.
  - intros ->. cbn [negb route]. eexists. split; [reflexivity | ].
    split; [ | split; [ | split]].
    + intros a b rest s Hs. cbn [bind]. rewrite Hs. reflexivity.
    + intros a b rest Hlen. cbn [bind].
      rewrite (Metrics.cosineSimilarity_throws a b Hlen). reflexivity.
    + intros [ | a [ | b vs ]] Hlt; cbn [length] in Hlt; try lia;
        reflexivity.
    + intros e. reflexivity.
  - intros request. reflexivity.
Qed.

Lemma similarity_route_spec_witness :
  (forall engine,
     similarity_route engine
       (Ok (JObject [("textA"%string, JString "a")])) =
     Respond (json (ErrorBody both_required) 400)) /\
  (forall engine, exists k,
     similarity_route engine
       (Ok (JObject [("textA"%string, JString "a");
                     ("textB"%string, JString "b")])) =
     AwaitVectorizeBatch (JArray [JString "a"; JString "b"]) JUndefined k /\
     k (Ok [[1; 0]; [1; 0]]) =
     json (SimilarityBody (JString "a") (JString "b") 1
             Labels.very_similar) 200 /\
     k (Ok [[1; 0]; [1; 0; 0]]) = json (ErrorBody failed_similarity) 500 /\
     k (Ok [[1; 0]]) = json (ErrorBody failed_similarity) 500).
Proof.
  split; intros engine.
  - destruct (similarity_route_spec engine
                (JObject [("textA"%string, JString "a")])
                ltac:(discriminate) ltac:(discriminate))
      as [H _].
    apply H. reflexivity.
  - destruct (similarity_route_spec engine
                (JObject [("textA"%string, JString "a");
                          ("textB"%string, JString "b")])
                ltac:(discriminate) ltac:(discriminate))
      as [_ [H _]].
    destruct (H eq_refl) as [k [Hk [Hs [Hd [Hf _]]]]].
    exists k. split; [exact Hk | split; [ | split]].
    + apply (Hs [1; 0] [1; 0] [] 1). reflexivity.
    + apply (Hd [1; 0] [1; 0; 0] []). cbn. lia.
    + apply Hf. cbn. lia.
Defined.
